(** * eVTOL violation monitors and master leaderboard

    A shallow embedding of the violation-detection scripts
    ([scripts/Monitoring_violations.py], [scripts/monitor_violations_linux.py],
    [scripts/Separate_Collision_Detection.py],
    [scripts/traffic_signal_violation.py]), of the leaderboard merge
    [update_master_csv] with the session files of [TeamMonitor], and of
    the path smoothing of [scripts/Pure_pursuit_steering_control.py].

    Conventions of the embedding.
    - Python [int] counters and totals are [Z].
    - Python [float] values are rationals [Q], and a decimal literal is
      the rational it denotes.  The simulator's coordinates are finite
      single-precision numbers; what the code computes from them (the
      distance to a zone, the speed, the dot product with the forward
      vector of a stop waypoint, a difference of coordinates) is
      rounded at every operation.  The stand-alone collision logger and
      the modules [FloatCollisionMonitor], [FloatRedLightMonitor] and
      [FloatTeamMonitor] take these computed values as functions of the
      readings they are computed from: what is proved of them holds
      however the operations round.  The modules [CollisionMonitor],
      [RedLightMonitor], [TrafficSignalScript] and [TeamMonitor]
      compute the same values without rounding, a test [sqrt(e) < r]
      with [r > 0] being written on the squares, [e < r * r]; they
      serve for the bounds and agreements that hold whatever the
      values are, and for the inputs at which a claim fails, chosen so
      that every floating-point operation on them is exact.  Times and
      path coordinates are not rounded.
    - Strings are sequences of 8-bit characters, and [lower], [strip]
      and [int] of [Py] are Python's on ASCII strings.  A statement
      that depends on them for a key or for the cells of a file takes
      as hypotheses that these strings are ASCII ([isascii],
      [ascii_records]): the hypotheses delimit the strings the
      statement speaks of, and its proof does not use them.
    - A [defaultdict(int)] is a [gmap string Z] read with default [0].
    - Every monitor method takes the monitor value and the simulator
      readings it polls (location, velocity, traffic light, clock) as
      arguments and returns the new monitor value.  A sensor callback
      and a call of the control loop take effect one at a time.
    - The leaderboard file is the list of records [csv.reader] yields;
      exceptions are explicit results.
    - The output directory is a map from file names to files: a team
      key is taken to be a valid file name, so that [{key}.csv] is a
      file of that directory and can be opened.
    - A run of [main] ends before the files are reached, before the
      monitoring loop, or in the loop ([FloatTeamMonitor.run_end]);
      [TeamMonitor.main] is the run that reaches the loop. *)

From Stdlib Require Import ZArith QArith Qabs Lqa String Ascii List Lia.
From Stdlib Require Import DecimalString DecimalZ DecimalPos.
From stdpp Require Import gmap strings list fin_maps.

#[local] Open Scope string_scope.
#[local] Open Scope list_scope.

(** ** Python builtins used by the scripts *)

Module Py.

(** Exceptions the leaderboard merge can raise. *)
Inductive exn := KeyError | ValueError | TypeError | AttributeError.

Inductive result (A : Type) :=
| Ok (a : A)
| Raise (e : exn).
Arguments Ok {A} a.
Arguments Raise {A} e.

Definition bind {A B} (r : result A) (k : A → result B) : result B :=
  match r with
  | Ok a => k a
  | Raise e => Raise e
  end.

(** [str.lower] on the ASCII letters; bytes outside [A-Z] are kept. *)
Definition lower_ascii (c : ascii) : ascii :=
  let n := N_of_ascii c in
  if ((65 <=? n) && (n <=? 90))%N then ascii_of_N (n + 32) else c.

Fixpoint lower (s : string) : string :=
  match s with
  | EmptyString => EmptyString
  | String c r => String (lower_ascii c) (lower r)
  end.

(** [str.isspace] on one ASCII character: tab, line feed, vertical tab,
    form feed, carriage return, the four separators 0x1c-0x1f and space. *)
Definition isspace (c : ascii) : bool :=
  let n := N_of_ascii c in
  (((9 <=? n) && (n <=? 13)) || ((28 <=? n) && (n <=? 32)))%N.

Fixpoint lstrip_with (space : ascii → bool) (s : string) : string :=
  match s with
  | EmptyString => EmptyString
  | String c r => if space c then lstrip_with space r else s
  end.

Fixpoint rstrip_with (space : ascii → bool) (s : string) : string :=
  match s with
  | EmptyString => EmptyString
  | String c r =>
      match rstrip_with space r with
      | EmptyString => if space c then EmptyString else String c EmptyString
      | r' => String c r'
      end
  end.

Definition strip_with (space : ascii → bool) (s : string) : string :=
  rstrip_with space (lstrip_with space s).

(** [s.strip()] *)
Definition strip (s : string) : string := strip_with isspace s.

(** No whitespace at the start, at the end, of a string: what
    [strip] establishes. *)
Definition starts_clean (s : string) : bool :=
  match s with
  | EmptyString => true
  | String c _ => negb (isspace c)
  end.

Fixpoint ends_clean (s : string) : bool :=
  match s with
  | EmptyString => true
  | String c EmptyString => negb (isspace c)
  | String _ r => ends_clean r
  end.

(** A string changed character by character. *)
Fixpoint map_string (g : ascii → ascii) (s : string) : string :=
  match s with
  | EmptyString => EmptyString
  | String c r => String (g c) (map_string g r)
  end.

(** [s.replace(" ", "_")] *)
Definition replace_space (s : string) : string :=
  map_string (λ c, if Ascii.eqb c " " then "_"%char else c) s.

(** [sub in s] for strings. *)
Fixpoint contains (sub s : string) : bool :=
  String.prefix sub s ||
  match s with
  | EmptyString => false
  | String _ r => contains sub r
  end.

(** [str(z)] for an [int]: decimal digits, a leading [-] when negative. *)
Definition str (z : Z) : string := NilZero.string_of_int (Z.to_int z).

(** The digits of an [int] literal: single underscores may separate
    digits ([int("1_000") = 1000]); [digits_of b s] removes them, where
    [b] tells whether the previous character was a digit. *)
Fixpoint digits_of (b : bool) (s : string) : option string :=
  match s with
  | EmptyString => if b then Some EmptyString else None
  | String c r =>
      if Ascii.eqb c "_" then
        if b then digits_of false r else None
      else
        option_map (String c) (digits_of true r)
  end.

Definition Z_of_digits (s : string) : option Z :=
  option_map Z.of_uint (option_bind _ _ NilZero.uint_of_string (digits_of false s)).

(** The whitespace [int] skips around an ASCII literal (C's
    [isspace]): tab to carriage return, and space; not 0x1c-0x1f. *)
Definition Py_ISSPACE (c : ascii) : bool :=
  let n := N_of_ascii c in
  (((9 <=? n) && (n <=? 13)) || (n =? 32))%N.

(** [int(s)] for a string: surrounding whitespace is ignored, one sign
    is allowed, then decimal digits; [None] is [ValueError]. *)
Definition int (s : string) : option Z :=
  match strip_with Py_ISSPACE s with
  | String c r =>
      if Ascii.eqb c "-" then option_map Z.opp (Z_of_digits r)
      else if Ascii.eqb c "+" then Z_of_digits r
      else Z_of_digits (String c r)
  | EmptyString => None
  end.

(** The characters [str] prints besides the sign. *)
Definition isdigit (c : ascii) : bool :=
  let n := N_of_ascii c in ((48 <=? n) && (n <=? 57))%N.

Fixpoint all_digits (s : string) : bool :=
  match s with
  | EmptyString => true
  | String c r => isdigit c && all_digits r
  end.

(** [str.isascii] *)
Fixpoint isascii (s : string) : bool :=
  match s with
  | EmptyString => true
  | String c r => (N_of_ascii c <? 128)%N && isascii r
  end.

End Py.

#[export] Instance result_bind : MBind Py.result := λ A B k r, Py.bind r k.

(** ** Simulator values *)

(** [carla.Location] and [carla.Vector3D]. *)
Record Vector3D := { x : Q; y : Q; z : Q }.

Definition Qltb (a b : Q) : bool := negb (Qle_bool b a).

Definition sq (a : Q) : Q := a * a.

(** The square of [euclidean_distance(loc1, loc2)], the function both
    collision scripts define (in the Linux script it is
    [math.hypot(loc1.x - loc2.x, loc1.y - loc2.y)]): only x and y count. *)
Definition euclidean_distance_sq (loc1 loc2 : Vector3D) : Q :=
  sq (x loc1 - x loc2) + sq (y loc1 - y loc2).

(** ** [CollisionMonitor] (Monitoring_violations.py, monitor_violations_linux.py) *)

Module CollisionMonitor.

Definition ZONE_RADIUS : Q := 2.

(** [euclidean_distance(loc, zone) < ZONE_RADIUS] *)
Definition in_zone (loc zone : Vector3D) : bool :=
  Qltb (euclidean_distance_sq loc zone) (sq ZONE_RADIUS).

Record t := {
  zones : list Vector3D;
  static_count : Z;
  dynamic_count : Z
}.

(** [__init__] *)
Definition init : t :=
  {| zones := []; static_count := 0; dynamic_count := 0 |}.

Definition _cleanup_zones (self : t) (current_loc : Vector3D) : t :=
  {| zones := List.filter (in_zone current_loc) (zones self);
     static_count := static_count self;
     dynamic_count := dynamic_count self |}.

(** [loc] is [self.vehicle.get_location()] when the event is delivered,
    [type_id] is [event.other_actor.type_id]. *)
Definition _on_collision (self : t) (loc : Vector3D) (type_id : string) : t :=
  let self := _cleanup_zones self loc in
  if existsb (in_zone loc) (zones self) then self
  else if Py.contains "vehicle" type_id then
    {| zones := zones self ++ [loc];
       static_count := static_count self;
       dynamic_count := dynamic_count self + 1 |}
  else
    {| zones := zones self ++ [loc];
       static_count := static_count self + 1;
       dynamic_count := dynamic_count self |}.

(** [total_collisions], also [total_coll] of [TeamMonitor.cleanup]. *)
Definition total_collisions (self : t) : Z :=
  static_count self + dynamic_count self.

(** What the sensor and the control loop of [TeamMonitor.run] do to the
    monitor: collision events, and zone clean-up once per loop turn. *)
Inductive step :=
| Collision (loc : Vector3D) (type_id : string)
| LoopTick (loc : Vector3D).

Definition run_step (self : t) (s : step) : t :=
  match s with
  | Collision loc type_id => _on_collision self loc type_id
  | LoopTick loc => _cleanup_zones self loc
  end.

Definition run (steps : list step) : t := fold_left run_step steps init.

(** The same from any monitor, the events among the steps, and where
    the vehicle is at a step. *)
Definition run_from (self : t) (steps : list step) : t := fold_left run_step steps self.

Definition is_collision (s : step) : bool :=
  match s with
  | Collision _ _ => true
  | LoopTick _ => false
  end.

Definition step_loc (s : step) : Vector3D :=
  match s with
  | Collision loc _ => loc
  | LoopTick loc => loc
  end.

End CollisionMonitor.

(** ** The stand-alone collision logger (Separate_Collision_Detection.py) *)

Module SeparateCollision.

(** The closure state of [start_collision_monitor]; a CSV row is kept as
    its [object_type] and [object_name] columns. *)
Record t := {
  collision_zones : list Vector3D;
  collision_count : Z;
  csv_rows : list (string * string)
}.

Definition init : t :=
  {| collision_zones := []; collision_count := 0; csv_rows := [] |}.

(** [euclidean_distance(new_loc, zone) < zone_radius].  The distance is
    a floating-point value, rounded by the subtractions, the squares
    and the root: it is taken as a function [euclidean_distance] of the
    two locations, so that what is proved holds however it is rounded.
    The radius is any finite number, negative ones included. *)
Definition is_in_existing_zone (euclidean_distance : Vector3D → Vector3D → Q)
    (zone_radius : Q) (self : t) (new_loc : Vector3D) : bool :=
  existsb (λ zone, Qltb (euclidean_distance new_loc zone) zone_radius)
    (collision_zones self).

Definition cleanup_zones (euclidean_distance : Vector3D → Vector3D → Q)
    (zone_radius : Q) (self : t) (current_loc : Vector3D) : t :=
  {| collision_zones :=
       List.filter (λ z, Qltb (euclidean_distance current_loc z) zone_radius)
         (collision_zones self);
     collision_count := collision_count self;
     csv_rows := csv_rows self |}.

(** [obj_type] as [on_collision] computes it from [actor.type_id]. *)
Definition obj_type (type_id : string) : string :=
  if Py.contains "vehicle" type_id || Py.contains "walker" type_id
  then "running" else "static".

Definition on_collision (euclidean_distance : Vector3D → Vector3D → Q)
    (zone_radius : Q) (self : t) (loc : Vector3D) (type_id : string) : t :=
  if is_in_existing_zone euclidean_distance zone_radius self loc then self
  else
    {| collision_zones := collision_zones self ++ [loc];
       collision_count := collision_count self + 1;
       csv_rows := csv_rows self ++ [(obj_type type_id, type_id)] |}.

(** The sensor callback and the monitoring loop of
    [start_collision_monitor]: the loop only cleans the zones up. *)
Inductive step :=
| Collision (loc : Vector3D) (type_id : string)
| LoopTick (loc : Vector3D).

Definition run_step (euclidean_distance : Vector3D → Vector3D → Q)
    (zone_radius : Q) (self : t) (s : step) : t :=
  match s with
  | Collision loc type_id => on_collision euclidean_distance zone_radius self loc type_id
  | LoopTick loc => cleanup_zones euclidean_distance zone_radius self loc
  end.

Definition run (euclidean_distance : Vector3D → Vector3D → Q)
    (zone_radius : Q) (steps : list step) : t :=
  fold_left (run_step euclidean_distance zone_radius) steps init.

(** For every zone, the distance computed from it to each zone recorded
    before it is [zone_radius] or more. *)
Fixpoint separated (euclidean_distance : Vector3D → Vector3D → Q)
    (zone_radius : Q) (zones : list Vector3D) : Prop :=
  match zones with
  | [] => True
  | zone :: later =>
      Forall (λ z, (zone_radius <= euclidean_distance z zone)%Q) later ∧
      separated euclidean_distance zone_radius later
  end.

(** What the logger keeps true of its state: the counter is the number
    of rows written, no more zones than rows, the zones apart, and
    every row classified by [obj_type]. *)
Definition consistent (euclidean_distance : Vector3D → Vector3D → Q)
    (zone_radius : Q) (self : t) : Prop :=
  collision_count self = Z.of_nat (length (csv_rows self)) ∧
  (length (collision_zones self) ≤ length (csv_rows self))%nat ∧
  separated euclidean_distance zone_radius (collision_zones self) ∧
  Forall (λ row, row.1 = obj_type row.2) (csv_rows self).

End SeparateCollision.

(** ** [LaneMonitor] (Monitoring_violations.py, monitor_violations_linux.py) *)

(** [d[key]] and [d[key] += 1] on a [defaultdict(int)]. *)
Definition count (d : gmap string Z) (key : string) : Z := default 0%Z (d !! key).

Definition incr (key : string) (d : gmap string Z) : gmap string Z :=
  <[key := (count d key + 1)%Z]> d.

Module LaneMonitor.

(** [carla.LaneMarkingType] *)
Inductive LaneMarkingType :=
| Other | Broken | Solid | SolidSolid | SolidBroken | BrokenSolid
| BrokenBroken | BottsDots | Grass | Curb | NONE.

#[export] Instance LaneMarkingType_eq_dec : EqDecision LaneMarkingType.
Proof. solve_decision. Defined.

Record t := {
  last_turn_time : Q;
  violations : gmap string Z
}.

Definition init : t := {| last_turn_time := 0; violations := ∅ |}.

Definition record_violation (self : t) (key : string) : t :=
  {| last_turn_time := last_turn_time self;
     violations := incr key (violations self) |}.

(** [markings] are the types of [event.crossed_lane_markings], [now] is
    [time.time()]. *)
Definition _on_lane_violation (self : t) (markings : list LaneMarkingType) (now : Q) : t :=
  if Qltb (now - last_turn_time self) 5 then self
  else if bool_decide (SolidSolid ∈ markings) then
    record_violation self "illegal_double_solid_cross"
  else if bool_decide (Solid ∈ markings) then
    record_violation self "illegal_solid_cross"
  else if bool_decide (Broken ∈ markings) then
    record_violation self "unjustified_dashed_cross"
  else self.

(** [is_junction] is [get_waypoint(loc).is_junction] for the vehicle's
    location, [now] is [time.time()]. *)
Definition update_turn_status (self : t) (is_junction : bool) (now : Q) : t :=
  if is_junction then
    {| last_turn_time := now; violations := violations self |}
  else self.

(** The three lane counters, as [TeamMonitor.cleanup] reads them:
    double solid, solid, dashed. *)
Definition counts (self : t) : Z * Z * Z :=
  (count (violations self) "illegal_double_solid_cross",
   count (violations self) "illegal_solid_cross",
   count (violations self) "unjustified_dashed_cross").

(** [total_lane] of [TeamMonitor.cleanup]. *)
Definition total_lane (self : t) : Z :=
  (count (violations self) "illegal_double_solid_cross"
   + count (violations self) "illegal_solid_cross"
   + count (violations self) "unjustified_dashed_cross")%Z.

(** What the sensor and the control loop of [TeamMonitor.run] do to the
    monitor: lane-invasion events, and [update_turn_status] once per
    loop turn. *)
Inductive step :=
| LaneInvasion (markings : list LaneMarkingType) (now : Q)
| LoopTick (is_junction : bool) (now : Q).

Definition run_step (self : t) (s : step) : t :=
  match s with
  | LaneInvasion markings now => _on_lane_violation self markings now
  | LoopTick is_junction now => update_turn_status self is_junction now
  end.

Definition run_from (self : t) (steps : list step) : t := fold_left run_step steps self.

(** The clock of the last loop turn that found the vehicle in a
    junction, [default] when there was none. *)
Fixpoint last_junction_time (steps : list step) (default : Q) : Q :=
  match steps with
  | [] => default
  | LoopTick true now :: steps => last_junction_time steps now
  | _ :: steps => last_junction_time steps default
  end.

Definition is_invasion (s : step) : bool :=
  match s with
  | LaneInvasion _ _ => true
  | LoopTick _ _ => false
  end.

End LaneMonitor.

(** ** Traffic lights as the red-light monitors read them *)

(** [carla.TrafficLightState] *)
Inductive TrafficLightState := Red | Yellow | Green | Off | Unknown.

#[export] Instance TrafficLightState_eq_dec : EqDecision TrafficLightState.
Proof. solve_decision. Defined.

(** A stop waypoint: [wp.transform.location] and
    [wp.transform.rotation.get_forward_vector()]. *)
Record Waypoint := {
  wp_location : Vector3D;
  wp_forward : Vector3D
}.

(** What a tick reads from a [carla.TrafficLight]: [trigger_world] is
    [tl.get_transform().transform(tl.trigger_volume.location)] and
    [trigger_extent] is [tl.trigger_volume.extent]. *)
Record TrafficLight := {
  get_state : TrafficLightState;
  get_stop_waypoints : list Waypoint;
  trigger_world : Vector3D;
  trigger_extent : Vector3D
}.

(** What a tick reads from the vehicle. *)
Record Vehicle := {
  get_location : Vector3D;
  get_velocity : Vector3D;
  get_traffic_light : option TrafficLight
}.

(** The square of [get_speed]. *)
Definition get_speed_sq (veh : Vehicle) : Q :=
  let v := get_velocity veh in sq (x v) + sq (y v) + sq (z v).

(** [speed > 1.0] *)
Definition speed_gt_1 (veh : Vehicle) : bool := Qltb 1 (get_speed_sq veh).

Definition get_stop_data (tl : TrafficLight) : option (Vector3D * Vector3D) :=
  match get_stop_waypoints tl with
  | wp :: _ => Some (wp_location wp, wp_forward wp)
  | [] => None
  end.

Definition is_inside_trigger_box (veh : Vehicle) (tl : TrafficLight) : bool :=
  let world_loc := trigger_world tl in
  let veh_loc := get_location veh in
  Qle_bool (Qabs (x world_loc - x veh_loc)) (x (trigger_extent tl)) &&
  Qle_bool (Qabs (y world_loc - y veh_loc)) (y (trigger_extent tl)) &&
  Qle_bool (Qabs (z world_loc - z veh_loc)) (z (trigger_extent tl)).

(** [dot]: the vector from the stop line to the vehicle, projected on
    the stop waypoint's forward vector. *)
Definition dot_past (veh_loc stop_loc stop_fwd : Vector3D) : Q :=
  (x veh_loc - x stop_loc) * x stop_fwd
  + (y veh_loc - y stop_loc) * y stop_fwd
  + (z veh_loc - z stop_loc) * z stop_fwd.

(** The violation type both scripts compute once the light is known to
    be red: the stop-line test when a stop waypoint exists ([stop_loc]
    is then a [carla.Location], which is true in a condition), the
    trigger volume otherwise. *)
Definition red_violation (veh : Vehicle) (tl : TrafficLight) : option string :=
  match get_stop_data tl with
  | Some (stop_loc, stop_fwd) =>
      if Qltb 0 (dot_past (get_location veh) stop_loc stop_fwd) && speed_gt_1 veh
      then Some "StopWaypointPassed" else None
  | None =>
      if is_inside_trigger_box veh tl && speed_gt_1 veh
      then Some "TriggerVolume" else None
  end.

(** The readings of a tick during which no red light influences the
    vehicle. *)
Definition no_red_light (veh : Vehicle) : Prop :=
  match get_traffic_light veh with
  | Some tl => get_state tl ≠ Red
  | None => True
  end.

(** The same readings with another trigger volume on the light. *)
Definition with_trigger_volume (world extent : Vector3D) (veh : Vehicle) : Vehicle :=
  {| get_location := get_location veh;
     get_velocity := get_velocity veh;
     get_traffic_light :=
       match get_traffic_light veh with
       | Some tl =>
           Some {| get_state := get_state tl;
                   get_stop_waypoints := get_stop_waypoints tl;
                   trigger_world := world;
                   trigger_extent := extent |}
       | None => None
       end |}.

(** ** [RedLightMonitor] (Monitoring_violations.py, monitor_violations_linux.py) *)

Module RedLightMonitor.

Record t := {
  violation_logged : bool;
  violations : gmap string Z
}.

Definition init : t := {| violation_logged := false; violations := ∅ |}.

Definition tick (self : t) (veh : Vehicle) : t :=
  match get_traffic_light veh with
  | None => {| violation_logged := false; violations := violations self |}
  | Some tl =>
      if bool_decide (get_state tl ≠ Red) then
        {| violation_logged := false; violations := violations self |}
      else
        match red_violation veh tl with
        | Some violation =>
            if negb (violation_logged self) then
              {| violation_logged := true;
                 violations := incr violation (violations self) |}
            else self
        | None => {| violation_logged := false; violations := violations self |}
        end
  end.

(** The control loop calls [tick] once per turn. *)
Definition ticks (self : t) (vehs : list Vehicle) : t := fold_left tick vehs self.

(** [total_red] of [TeamMonitor.cleanup]. *)
Definition total_red (self : t) : Z :=
  (count (violations self) "StopWaypointPassed"
   + count (violations self) "TriggerVolume")%Z.

End RedLightMonitor.

(** ** The stand-alone red-light logger (traffic_signal_violation.py) *)

Module TrafficSignalScript.

(** The loop state: the flag and the rows appended to [violations.csv],
    each kept as its [TrafficLightState] and [ViolationType] columns. *)
Record t := {
  violation_logged : bool;
  csv_rows : list (TrafficLightState * string)
}.

Definition init : t := {| violation_logged := false; csv_rows := [] |}.

(** One turn of the main monitor loop. *)
Definition loop_body (self : t) (veh : Vehicle) : t :=
  match get_traffic_light veh with
  | Some tl =>
      let violation_type :=
        if bool_decide (get_state tl = Red) then red_violation veh tl else None in
      match violation_type with
      | Some ty =>
          if negb (violation_logged self) then
            {| violation_logged := true;
               csv_rows := csv_rows self ++ [(get_state tl, ty)] |}
          else self
      | None => {| violation_logged := false; csv_rows := csv_rows self |}
      end
  | None => {| violation_logged := false; csv_rows := csv_rows self |}
  end.

(** The turns of the loop, and the rows of one violation type. *)
Definition loop (self : t) (vehs : list Vehicle) : t := fold_left loop_body vehs self.

Definition rows_of_type (ty : string) (self : t) : list (TrafficLightState * string) :=
  List.filter (λ row, String.eqb row.2 ty) (csv_rows self).

End TrafficSignalScript.

(** ** The master leaderboard: [update_master_csv] (monitor_violations_linux.py) *)

Module Master.

Import Py.

Definition fieldnames : list string :=
  [ "team name"; "date/time";
    "current_lane"; "lowest_lane";
    "current_collision"; "lowest_collision";
    "current_redlight"; "lowest_redlight";
    "current_total"; "lowest_total" ].

(** [master_violation.csv] as the records [csv.reader] yields, the
    header first; [None] when the file does not exist. *)
Definition csv_file := list (list string).
Definition store := option csv_file.

(** A row of [csv.DictReader]: a [dict] from column names to cell
    values, where [None] is Python's [None] (the [restval] of a short
    record); [rest] is the list stored under the key [None] (the
    [restkey]) when a record is longer than the header. *)
Record rowdict := {
  named : gmap string (option string);
  rest : option (list string)
}.

(** [DictReader.__next__] on one non-empty record: [dict(zip(...))],
    then the [restkey] or the [restval] cells. *)
Definition DictReader_row (header record : list string) : rowdict :=
  let d := fold_left (λ d kv, <[kv.1 := Some kv.2]> d) (zip header record) ∅ in
  if (length header <? length record)%nat then
    {| named := d; rest := Some (drop (length header) record) |}
  else
    {| named := fold_left (λ d key, <[key := None]> d) (drop (length record) header) d;
       rest := None |}.

(** [list(reader)]: blank records are skipped. *)
Definition DictReader_rows (header : list string) (records : list (list string)) : list rowdict :=
  map (DictReader_row header) (List.filter (λ r, negb (bool_decide (r = []))) records).

(** Lines 35-40: the rows that are merged into.  A missing or empty
    file, or a header that is not the expected set of names, gives []. *)
Definition read_rows (f : store) : list rowdict :=
  match f with
  | Some (header :: records) =>
      if bool_decide (list_to_set header =@{gset string} list_to_set fieldnames)
      then DictReader_rows header records
      else []
  | _ => []
  end.

(** [row[key]] *)
Definition getitem (row : rowdict) (key : string) : result (option string) :=
  match named row !! key with
  | Some v => Ok v
  | None => Raise KeyError
  end.

(** [row[key] = value] *)
Definition setitem (key value : string) (row : rowdict) : rowdict :=
  {| named := <[key := Some value]> (named row); rest := rest row |}.

(** [v.strip().lower()] *)
Definition strip_lower (v : option string) : result string :=
  match v with
  | Some s => Ok (lower (strip s))
  | None => Raise AttributeError
  end.

(** [int(v)] *)
Definition int_of (v : option string) : result Z :=
  match v with
  | Some s => match int s with Some n => Ok n | None => Raise ValueError end
  | None => Raise TypeError
  end.

(** The test of line 45. *)
Definition is_team (row : rowdict) (team_name : string) : result bool :=
  v ← getitem row "team name";
  name ← strip_lower v;
  Ok (String.eqb name (lower team_name)).

(** Lines 47-57, on the row that matched. *)
Definition update_row (now : string) (lane collision redlight : Z) (row : rowdict)
  : result rowdict :=
  let current_total := (lane + collision + redlight)%Z in
  lowest_lane ← getitem row "lowest_lane" ≫= int_of;
  lowest_collision ← getitem row "lowest_collision" ≫= int_of;
  lowest_redlight ← getitem row "lowest_redlight" ≫= int_of;
  let row :=
    setitem "lowest_redlight" (str (Z.min lowest_redlight redlight))
    (setitem "current_redlight" (str redlight)
    (setitem "lowest_collision" (str (Z.min lowest_collision collision))
    (setitem "current_collision" (str collision)
    (setitem "lowest_lane" (str (Z.min lowest_lane lane))
    (setitem "current_lane" (str lane)
    (setitem "date/time" now row)))))) in
  let row := setitem "current_total" (str current_total) row in
  lowest_total ← getitem row "lowest_total" ≫= int_of;
  Ok (setitem "lowest_total" (str (Z.min lowest_total current_total)) row).

(** Lines 61-72: the row of a team seen for the first time. *)
Definition new_row (now team_name : string) (lane collision redlight : Z) : rowdict :=
  let current_total := (lane + collision + redlight)%Z in
  {| named :=
       list_to_map
         [ ("team name", Some team_name); ("date/time", Some now);
           ("current_lane", Some (str lane)); ("lowest_lane", Some (str lane));
           ("current_collision", Some (str collision));
           ("lowest_collision", Some (str collision));
           ("current_redlight", Some (str redlight));
           ("lowest_redlight", Some (str redlight));
           ("current_total", Some (str current_total));
           ("lowest_total", Some (str current_total)) ];
     rest := None |}.

(** The loop of lines 44-58: [Some rows'] when a row matched and was
    updated (the loop stops there), [None] when none matched. *)
Fixpoint update_first (now team_name : string) (lane collision redlight : Z)
    (rows : list rowdict) : result (option (list rowdict)) :=
  match rows with
  | [] => Ok None
  | row :: rows =>
      b ← is_team row team_name;
      if b : bool then
        row' ← update_row now lane collision redlight row;
        Ok (Some (row' :: rows))
      else
        r ← update_first now team_name lane collision redlight rows;
        Ok (option_map (cons row) r)
  end.

(** Lines 42-72. *)
Definition merge_rows (now team_name : string) (lane collision redlight : Z)
    (rows : list rowdict) : result (list rowdict) :=
  r ← update_first now team_name lane collision redlight rows;
  match r with
  | Some rows' => Ok rows'
  | None => Ok (rows ++ [new_row now team_name lane collision redlight])
  end.

(** How [csv.writer] prints a cell of a row: a missing key is the
    [restval] [''], and [None] is printed as the empty string. *)
Definition cell_text (v : option (option string)) : string :=
  match v with
  | Some (Some s) => s
  | _ => ""
  end.

(** [DictWriter._dict_to_list]: a key outside [fieldnames] is a
    [ValueError]. *)
Definition _dict_to_list (row : rowdict) : result (list string) :=
  if bool_decide (dom (named row) ⊆ list_to_set fieldnames) && bool_decide (rest row = None)
  then Ok (map (λ key, cell_text (named row !! key)) fieldnames)
  else Raise ValueError.

(** [writer.writerows(rows)]: the records written, and whether a row
    raised (the records before it are already in the file). *)
Fixpoint writerows (rows : list rowdict) : list (list string) * result unit :=
  match rows with
  | [] => ([], Ok tt)
  | row :: rows =>
      match _dict_to_list row with
      | Ok record => let '(records, r) := writerows rows in (record :: records, r)
      | Raise e => ([], Raise e)
      end
  end.

(** [update_master_csv(team_name, lane, collision, redlight)] on the
    file [f]; [now] is the formatted [datetime.now()].  The result is
    the file afterwards and how the call ended: an exception before
    line 74 leaves the file as it was, one in [writerows] leaves the
    header and the records written so far. *)
Definition update_master_csv (f : store) (now team_name : string)
    (lane collision redlight : Z) : store * result unit :=
  match merge_rows now team_name lane collision redlight (read_rows f) with
  | Ok rows =>
      let '(records, r) := writerows rows in (Some (fieldnames :: records), r)
  | Raise e => (f, Raise e)
  end.

(** *** The leaderboard as records

    The test of line 45 on the first cell of a record, the record that
    [writerows] prints for [new_row], and the eight numbers of a record
    as [int] reads them. *)

Definition name_matches (name team_name : string) : bool :=
  String.eqb (lower (strip name)) (lower team_name).

Definition record_matches (team_name : string) (record : list string) : bool :=
  match record with
  | name :: _ => name_matches name team_name
  | [] => false
  end.

Definition new_record (now team_name : string) (lane collision redlight : Z) : list string :=
  let current_total := (lane + collision + redlight)%Z in
  [ team_name; now; str lane; str lane; str collision; str collision;
    str redlight; str redlight; str current_total; str current_total ].

Record entry := {
  current_lane : Z; lowest_lane : Z;
  current_collision : Z; lowest_collision : Z;
  current_redlight : Z; lowest_redlight : Z;
  current_total : Z; lowest_total : Z
}.

Definition entry_of (record : list string) : option entry :=
  match record with
  | [_; _; cl; ll; cc; lc; cr; lr; ct; lt] =>
      cl ← int cl; ll ← int ll; cc ← int cc; lc ← int lc;
      cr ← int cr; lr ← int lr; ct ← int ct; lt ← int lt;
      Some {| current_lane := cl; lowest_lane := ll;
              current_collision := cc; lowest_collision := lc;
              current_redlight := cr; lowest_redlight := lr;
              current_total := ct; lowest_total := lt |}
  | _ => None
  end.

(** [lowest <= current] in the four categories. *)
Definition lowest_le_current (e : entry) : Prop :=
  (lowest_lane e ≤ current_lane e)%Z ∧
  (lowest_collision e ≤ current_collision e)%Z ∧
  (lowest_redlight e ≤ current_redlight e)%Z ∧
  (lowest_total e ≤ current_total e)%Z.

(** The four lowest fields of [e'] are at most those of [e]. *)
Definition lowest_le (e' e : entry) : Prop :=
  (lowest_lane e' ≤ lowest_lane e)%Z ∧
  (lowest_collision e' ≤ lowest_collision e)%Z ∧
  (lowest_redlight e' ≤ lowest_redlight e)%Z ∧
  (lowest_total e' ≤ lowest_total e)%Z.

(** The records below the header. *)
Definition records_of (f : store) : list (list string) :=
  match f with
  | Some (_ :: records) => records
  | _ => []
  end.

(** The invariant of a leaderboard record, the relation between a
    record before and after a merge, and the files a sequence of merges
    can leave. *)
Definition good_record (record : list string) : Prop :=
  ∃ e, entry_of record = Some e ∧ lowest_le_current e.

Definition lowest_not_raised (record record' : list string) : Prop :=
  ∃ e e', entry_of record = Some e ∧ entry_of record' = Some e' ∧ lowest_le e' e.

Definition good_store (f : store) : Prop :=
  f = None ∨ ∃ records, f = Some (fieldnames :: records) ∧ Forall good_record records.

(** A record read as an entry that satisfies [P]. *)
Definition entry_with (P : entry → Prop) (record : list string) : Prop :=
  ∃ e, entry_of record = Some e ∧ P e.

(** What line 47-57 and 61-72 make of an entry: the entry of a new team,
    and the entry of a known team after a merge. *)
Definition created_entry (lane collision redlight : Z) : entry :=
  {| current_lane := lane; lowest_lane := lane;
     current_collision := collision; lowest_collision := collision;
     current_redlight := redlight; lowest_redlight := redlight;
     current_total := lane + collision + redlight;
     lowest_total := lane + collision + redlight |}.

Definition merged_entry (lane collision redlight : Z) (e : entry) : entry :=
  {| current_lane := lane; lowest_lane := Z.min (lowest_lane e) lane;
     current_collision := collision;
     lowest_collision := Z.min (lowest_collision e) collision;
     current_redlight := redlight;
     lowest_redlight := Z.min (lowest_redlight e) redlight;
     current_total := lane + collision + redlight;
     lowest_total := Z.min (lowest_total e) (lane + collision + redlight) |}.

(** The four lowest fields are not negative. *)
Definition lowest_nonneg (e : entry) : Prop :=
  (0 ≤ lowest_lane e)%Z ∧ (0 ≤ lowest_collision e)%Z ∧
  (0 ≤ lowest_redlight e)%Z ∧ (0 ≤ lowest_total e)%Z.

(** [0 <= lowest <= current] in the four categories. *)
Definition sound (e : entry) : Prop := lowest_nonneg e ∧ lowest_le_current e.

(** One call, and a sequence of calls on the file they share. *)
Record call := {
  call_now : string;
  call_team : string;
  call_lane : Z;
  call_collision : Z;
  call_redlight : Z
}.

Definition update (f : store) (c : call) : store :=
  (update_master_csv f (call_now c) (call_team c)
     (call_lane c) (call_collision c) (call_redlight c)).1.

Definition updates (f : store) (calls : list call) : store := fold_left update calls f.

(** The sessions of one team among [calls] (keys compared as line 45
    compares a stored key), the total of a call, and the record the
    sessions [first :: later] of a team leave: the name of the first,
    the date and totals of the last, the minimum of each total. *)
Definition same_team (team_name : string) (c : call) : bool :=
  String.eqb (lower (call_team c)) (lower team_name).

Definition call_total (c : call) : Z :=
  (call_lane c + call_collision c + call_redlight c)%Z.

Definition lowest_of (total : call → Z) (first : call) (later : list call) : Z :=
  fold_left (λ low c, Z.min low (total c)) later (total first).

Definition team_record (first : call) (later : list call) : list string :=
  let last := List.last later first in
  [ call_team first; call_now last;
    str (call_lane last); str (lowest_of call_lane first later);
    str (call_collision last); str (lowest_of call_collision first later);
    str (call_redlight last); str (lowest_of call_redlight first later);
    str (call_total last); str (lowest_of call_total first later) ].

Definition team_records (team_name : string) (calls : list call) : list (list string) :=
  match List.filter (same_team team_name) calls with
  | [] => []
  | first :: later => [team_record first later]
  end.

(** Records whose cells are ASCII strings.  [lower], [strip] and [int]
    above are Python's on ASCII strings; Python's also lower-case,
    strip and read as digits characters outside ASCII. *)
Definition ascii_records (records : list (list string)) : Prop :=
  Forall (Forall (λ cell, isascii cell = true)) records.

End Master.

(** ** [TeamMonitor] and [main] (monitor_violations_linux.py) *)

Module TeamMonitor.

(** [self.team_name] as [__init__] sets it. *)
Definition team_name (team_name : string) : string :=
  Py.replace_space (Py.lower team_name).

(** The key [cleanup] passes to [update_master_csv] for the name typed
    at the prompt of [main], which strips it. *)
Definition main_team_name (input : string) : string :=
  team_name (Py.strip input).

(** The files of [VIOLATION_DIR], by file name: the leaderboard
    [master_violation.csv] and the history file [{team_name}.csv] of
    each team, both built with [os.path.join(VIOLATION_DIR, ...)].  A
    team name is taken to be a valid file name (no path separator). *)
Abbreviation dir := (gmap string Master.csv_file).

Definition master_path : string := "master_violation.csv".

Definition team_csv (team_name : string) : string := String.append team_name ".csv".

(** The header [_init_team_csv] writes when the team's history file
    does not exist yet. *)
Definition team_header : list string :=
  [ "illegal_double_solid_cross"; "illegal_solid_cross"; "unjustified_dashed_cross";
    "total_lane_violations"; "static_collisions"; "dynamic_collisions";
    "total_collisions"; "redlight_StopWaypointPassed"; "redlight_TriggerVolume";
    "total_redlight_violations"; "timestamp" ].

Definition _init_team_csv (d : dir) (team_name : string) : dir :=
  match d !! team_csv team_name with
  | None => <[team_csv team_name := [team_header]]> d
  | Some _ => d
  end.

(** The three monitors of a session. *)
Record t := {
  lane : LaneMonitor.t;
  collision : CollisionMonitor.t;
  redlight : RedLightMonitor.t
}.

(** [run], once the ego vehicle is found. *)
Definition start : t :=
  {| lane := LaneMonitor.init;
     collision := CollisionMonitor.init;
     redlight := RedLightMonitor.init |}.

(** What happens during [run], in the order it takes effect: the two
    sensors call back, and the loop calls [update_turn_status], [tick]
    and [_cleanup_zones] in turn, each with what it reads then. *)
Inductive event :=
| LaneInvasion (markings : list LaneMonitor.LaneMarkingType) (now : Q)
| CollisionEvent (loc : Vector3D) (type_id : string)
| TurnStatus (is_junction : bool) (now : Q)
| Tick (veh : Vehicle)
| CleanupZones (loc : Vector3D).

Definition step (self : t) (e : event) : t :=
  match e with
  | LaneInvasion markings now =>
      {| lane := LaneMonitor._on_lane_violation (lane self) markings now;
         collision := collision self;
         redlight := redlight self |}
  | CollisionEvent loc type_id =>
      {| lane := lane self;
         collision := CollisionMonitor._on_collision (collision self) loc type_id;
         redlight := redlight self |}
  | TurnStatus is_junction now =>
      {| lane := LaneMonitor.update_turn_status (lane self) is_junction now;
         collision := collision self;
         redlight := redlight self |}
  | Tick veh =>
      {| lane := lane self;
         collision := collision self;
         redlight := RedLightMonitor.tick (redlight self) veh |}
  | CleanupZones loc =>
      {| lane := lane self;
         collision := CollisionMonitor._cleanup_zones (collision self) loc;
         redlight := redlight self |}
  end.

Definition run (events : list event) : t := fold_left step events start.

(** The row [cleanup] appends to the history file; [ts] is the
    formatted [datetime.now()]. *)
Definition summary_row (self : t) (ts : string) : list string :=
  let ds := count (LaneMonitor.violations (lane self)) "illegal_double_solid_cross" in
  let s := count (LaneMonitor.violations (lane self)) "illegal_solid_cross" in
  let d := count (LaneMonitor.violations (lane self)) "unjustified_dashed_cross" in
  let total_lane := (ds + s + d)%Z in
  let static := CollisionMonitor.static_count (collision self) in
  let dynamic := CollisionMonitor.dynamic_count (collision self) in
  let total_coll := (static + dynamic)%Z in
  let stop_v := count (RedLightMonitor.violations (redlight self)) "StopWaypointPassed" in
  let trig_v := count (RedLightMonitor.violations (redlight self)) "TriggerVolume" in
  let total_red := (stop_v + trig_v)%Z in
  [ Py.str ds; Py.str s; Py.str d; Py.str total_lane;
    Py.str static; Py.str dynamic; Py.str total_coll;
    Py.str stop_v; Py.str trig_v; Py.str total_red; ts ].

(** [cleanup]: the row is appended to the history file, then the
    leaderboard is merged into.  The result is the directory afterwards
    and how [update_master_csv] ended; [ts] and [now] are the two
    readings of the clock. *)
Definition cleanup (d : dir) (team_name ts now : string) (self : t) : dir * Py.result unit :=
  let d :=
    <[team_csv team_name :=
        default [] (d !! team_csv team_name) ++ [summary_row self ts]]> d in
  let '(master, r) :=
    Master.update_master_csv (d !! master_path) now team_name
      (LaneMonitor.total_lane (lane self))
      (CollisionMonitor.total_collisions (collision self))
      (RedLightMonitor.total_red (redlight self)) in
  (match master with Some f => <[master_path := f]> d | None => d end, r).

(** A session: what happens while it runs and the two readings of the
    clock at its end. *)
Record session := {
  session_events : list event;
  session_ts : string;
  session_now : string
}.

(** [TeamMonitor(client, team).run()] *)
Definition run_session (d : dir) (team : string) (s : session) : dir * Py.result unit :=
  let name := team_name team in
  cleanup (_init_team_csv d name) name (session_ts s) (session_now s)
    (run (session_events s)).

(** [main]; [input] is the line typed at the prompt. *)
Definition main (d : dir) (input : string) (s : session) : dir * Py.result unit :=
  let team := Py.strip input in
  if bool_decide (team = "") then (d, Py.Ok tt) else run_session d team s.

End TeamMonitor.

(** ** The monitors on the values the code computes

    The distance to a zone, the speed and the dot product with the stop
    waypoint's forward vector are floating-point values, rounded at
    every operation.  The definitions of this part take them as
    functions of the simulator readings they are computed from, so that
    what is proved of them holds however the operations round.  The
    simulator's coordinates are finite single-precision numbers, so the
    computed values are finite numbers too, hence rationals, and the
    squares of [euclidean_distance] and [get_speed] do not overflow. *)

Module FloatCollisionMonitor.

Section computed.

(** [euclidean_distance loc zone] is the value of
    [euclidean_distance(loc, zone)], that is of
    [math.sqrt((loc.x - zone.x) ** 2 + (loc.y - zone.y) ** 2)], and in
    the Linux script of [math.hypot(loc.x - zone.x, loc.y - zone.y)]. *)
Variable euclidean_distance : Vector3D → Vector3D → Q.

(** [euclidean_distance(loc, zone) < ZONE_RADIUS] *)
Definition in_zone (loc zone : Vector3D) : bool :=
  Qltb (euclidean_distance loc zone) CollisionMonitor.ZONE_RADIUS.

Definition _cleanup_zones (self : CollisionMonitor.t) (current_loc : Vector3D)
  : CollisionMonitor.t :=
  {| CollisionMonitor.zones :=
       List.filter (in_zone current_loc) (CollisionMonitor.zones self);
     CollisionMonitor.static_count := CollisionMonitor.static_count self;
     CollisionMonitor.dynamic_count := CollisionMonitor.dynamic_count self |}.

Definition _on_collision (self : CollisionMonitor.t) (loc : Vector3D) (type_id : string)
  : CollisionMonitor.t :=
  let self := _cleanup_zones self loc in
  if existsb (in_zone loc) (CollisionMonitor.zones self) then self
  else if Py.contains "vehicle" type_id then
    {| CollisionMonitor.zones := CollisionMonitor.zones self ++ [loc];
       CollisionMonitor.static_count := CollisionMonitor.static_count self;
       CollisionMonitor.dynamic_count := CollisionMonitor.dynamic_count self + 1 |}
  else
    {| CollisionMonitor.zones := CollisionMonitor.zones self ++ [loc];
       CollisionMonitor.static_count := CollisionMonitor.static_count self + 1;
       CollisionMonitor.dynamic_count := CollisionMonitor.dynamic_count self |}.

Definition run_step (self : CollisionMonitor.t) (s : CollisionMonitor.step)
  : CollisionMonitor.t :=
  match s with
  | CollisionMonitor.Collision loc type_id => _on_collision self loc type_id
  | CollisionMonitor.LoopTick loc => _cleanup_zones self loc
  end.

Definition run_from (self : CollisionMonitor.t) (steps : list CollisionMonitor.step)
  : CollisionMonitor.t :=
  fold_left run_step steps self.

Definition run (steps : list CollisionMonitor.step) : CollisionMonitor.t :=
  run_from CollisionMonitor.init steps.

End computed.

End FloatCollisionMonitor.

Module FloatRedLightMonitor.

Section computed.

(** [get_speed v] is the value of [get_speed()] when the vehicle's
    velocity is [v]: [math.sqrt(v.x**2 + v.y**2 + v.z**2)].
    [dot veh_loc stop_loc stop_fwd] is the value of [dot]: in the two
    monitors [rel.x*stop_fwd.x + rel.y*stop_fwd.y + rel.z*stop_fwd.z]
    with [rel = veh_loc - stop_loc] a [carla.Vector3D], in the
    stand-alone logger the same sum with
    [rel_x = veh_loc.x - stop_loc.x] and so on.
    [sub a b] is the value of [a - b]. *)
Variable get_speed : Vector3D → Q.
Variable dot : Vector3D → Vector3D → Vector3D → Q.
Variable sub : Q → Q → Q.

Definition is_inside_trigger_box (veh : Vehicle) (tl : TrafficLight) : bool :=
  let world_loc := trigger_world tl in
  let veh_loc := get_location veh in
  Qle_bool (Qabs (sub (x world_loc) (x veh_loc))) (x (trigger_extent tl)) &&
  Qle_bool (Qabs (sub (y world_loc) (y veh_loc))) (y (trigger_extent tl)) &&
  Qle_bool (Qabs (sub (z world_loc) (z veh_loc))) (z (trigger_extent tl)).

(** The violation type once the light is known to be red:
    [dot > 0 and speed > 1.0] when a stop waypoint exists,
    [is_inside_trigger_box(tl) and speed > 1.0] otherwise. *)
Definition red_violation (veh : Vehicle) (tl : TrafficLight) : option string :=
  let speed := get_speed (get_velocity veh) in
  match get_stop_data tl with
  | Some (stop_loc, stop_fwd) =>
      if Qltb 0 (dot (get_location veh) stop_loc stop_fwd) && Qltb 1 speed
      then Some "StopWaypointPassed" else None
  | None =>
      if is_inside_trigger_box veh tl && Qltb 1 speed
      then Some "TriggerVolume" else None
  end.

(** [RedLightMonitor.tick] *)
Definition tick (self : RedLightMonitor.t) (veh : Vehicle) : RedLightMonitor.t :=
  match get_traffic_light veh with
  | None =>
      {| RedLightMonitor.violation_logged := false;
         RedLightMonitor.violations := RedLightMonitor.violations self |}
  | Some tl =>
      if bool_decide (get_state tl ≠ Red) then
        {| RedLightMonitor.violation_logged := false;
           RedLightMonitor.violations := RedLightMonitor.violations self |}
      else
        match red_violation veh tl with
        | Some violation =>
            if negb (RedLightMonitor.violation_logged self) then
              {| RedLightMonitor.violation_logged := true;
                 RedLightMonitor.violations :=
                   incr violation (RedLightMonitor.violations self) |}
            else self
        | None =>
            {| RedLightMonitor.violation_logged := false;
               RedLightMonitor.violations := RedLightMonitor.violations self |}
        end
  end.

(** The control loop calls [tick] once per turn. *)
Definition ticks (self : RedLightMonitor.t) (vehs : list Vehicle) : RedLightMonitor.t :=
  fold_left tick vehs self.

(** One turn of the main monitor loop of traffic_signal_violation.py. *)
Definition loop_body (self : TrafficSignalScript.t) (veh : Vehicle)
  : TrafficSignalScript.t :=
  match get_traffic_light veh with
  | Some tl =>
      let violation_type :=
        if bool_decide (get_state tl = Red) then red_violation veh tl else None in
      match violation_type with
      | Some ty =>
          if negb (TrafficSignalScript.violation_logged self) then
            {| TrafficSignalScript.violation_logged := true;
               TrafficSignalScript.csv_rows :=
                 TrafficSignalScript.csv_rows self ++ [(get_state tl, ty)] |}
          else self
      | None =>
          {| TrafficSignalScript.violation_logged := false;
             TrafficSignalScript.csv_rows := TrafficSignalScript.csv_rows self |}
      end
  | None =>
      {| TrafficSignalScript.violation_logged := false;
         TrafficSignalScript.csv_rows := TrafficSignalScript.csv_rows self |}
  end.

(** The readings of a tick during which a red light with a stop
    waypoint influences the vehicle, the computed [dot] is above 0 and
    the computed speed above 1.0. *)
Definition past_stop_line_moving (veh : Vehicle) : Prop :=
  ∃ tl wp wps,
    get_traffic_light veh = Some tl ∧ get_state tl = Red ∧
    get_stop_waypoints tl = wp :: wps ∧
    (0 < dot (get_location veh) (wp_location wp) (wp_forward wp))%Q ∧
    (1 < get_speed (get_velocity veh))%Q.

(** The same with a computed speed of 1.0 or less. *)
Definition past_stop_line_slow (veh : Vehicle) : Prop :=
  ∃ tl wp wps,
    get_traffic_light veh = Some tl ∧ get_state tl = Red ∧
    get_stop_waypoints tl = wp :: wps ∧
    (0 < dot (get_location veh) (wp_location wp) (wp_forward wp))%Q ∧
    (get_speed (get_velocity veh) <= 1)%Q.

(** The readings of a tick during which a red light without stop
    waypoint influences the vehicle, the three tests of
    [is_inside_trigger_box] hold and the computed speed is above 1.0. *)
Definition in_trigger_volume_moving (veh : Vehicle) : Prop :=
  ∃ tl,
    get_traffic_light veh = Some tl ∧ get_state tl = Red ∧
    get_stop_waypoints tl = [] ∧
    (Qabs (sub (x (trigger_world tl)) (x (get_location veh))) <= x (trigger_extent tl))%Q ∧
    (Qabs (sub (y (trigger_world tl)) (y (get_location veh))) <= y (trigger_extent tl))%Q ∧
    (Qabs (sub (z (trigger_world tl)) (z (get_location veh))) <= z (trigger_extent tl))%Q ∧
    (1 < get_speed (get_velocity veh))%Q.

End computed.

End FloatRedLightMonitor.

(** ** Runs of [main] (monitor_violations_linux.py) *)

Module FloatTeamMonitor.

(** How far a run of [main] that got past the prompt goes.
    [TeamMonitor.__init__] calls [client.get_world()] before it creates
    the history file, and [run] calls [find_vehicle] and the two
    [attach_sensor] before it enters the [try] statement whose
    [finally] clause calls [cleanup]: a run that ends by an exception
    there (no simulator, a sensor that cannot be spawned, the user's
    interrupt while [find_vehicle] waits) writes no summary.  Once in
    the [try] statement, [cleanup] runs however the loop ends. *)
Inductive run_end :=
| BeforeFiles
| BeforeLoop
| InLoop (s : TeamMonitor.session).

Section computed.

Variable euclidean_distance : Vector3D → Vector3D → Q.
Variable get_speed : Vector3D → Q.
Variable dot : Vector3D → Vector3D → Vector3D → Q.
Variable sub : Q → Q → Q.

Definition step (self : TeamMonitor.t) (e : TeamMonitor.event) : TeamMonitor.t :=
  match e with
  | TeamMonitor.LaneInvasion markings now =>
      {| TeamMonitor.lane :=
           LaneMonitor._on_lane_violation (TeamMonitor.lane self) markings now;
         TeamMonitor.collision := TeamMonitor.collision self;
         TeamMonitor.redlight := TeamMonitor.redlight self |}
  | TeamMonitor.CollisionEvent loc type_id =>
      {| TeamMonitor.lane := TeamMonitor.lane self;
         TeamMonitor.collision :=
           FloatCollisionMonitor._on_collision euclidean_distance
             (TeamMonitor.collision self) loc type_id;
         TeamMonitor.redlight := TeamMonitor.redlight self |}
  | TeamMonitor.TurnStatus is_junction now =>
      {| TeamMonitor.lane :=
           LaneMonitor.update_turn_status (TeamMonitor.lane self) is_junction now;
         TeamMonitor.collision := TeamMonitor.collision self;
         TeamMonitor.redlight := TeamMonitor.redlight self |}
  | TeamMonitor.Tick veh =>
      {| TeamMonitor.lane := TeamMonitor.lane self;
         TeamMonitor.collision := TeamMonitor.collision self;
         TeamMonitor.redlight :=
           FloatRedLightMonitor.tick get_speed dot sub (TeamMonitor.redlight self) veh |}
  | TeamMonitor.CleanupZones loc =>
      {| TeamMonitor.lane := TeamMonitor.lane self;
         TeamMonitor.collision :=
           FloatCollisionMonitor._cleanup_zones euclidean_distance
             (TeamMonitor.collision self) loc;
         TeamMonitor.redlight := TeamMonitor.redlight self |}
  end.

Definition run (events : list TeamMonitor.event) : TeamMonitor.t :=
  fold_left step events TeamMonitor.start.

(** [main]; [input] is the line typed at the prompt.  The result is the
    directory afterwards and how [update_master_csv] ended when it was
    called. *)
Definition main (d : TeamMonitor.dir) (input : string) (e : run_end)
  : TeamMonitor.dir * option (Py.result unit) :=
  let team := Py.strip input in
  if bool_decide (team = "") then (d, Some (Py.Ok tt))
  else
    let name := TeamMonitor.team_name team in
    match e with
    | BeforeFiles => (d, None)
    | BeforeLoop => (TeamMonitor._init_team_csv d name, None)
    | InLoop s =>
        let r :=
          TeamMonitor.cleanup (TeamMonitor._init_team_csv d name) name
            (TeamMonitor.session_ts s) (TeamMonitor.session_now s)
            (run (TeamMonitor.session_events s)) in
        (r.1, Some r.2)
    end.

(** One run of the script after the other on the same directory. *)
Definition mains (d : TeamMonitor.dir) (runs : list (string * run_end)) : TeamMonitor.dir :=
  fold_left (λ d r, (main d r.1 r.2).1) runs d.

(** The runs that get past the prompt, those that create or find the
    history file, and the session of a run that reaches the loop. *)
Definition named (r : string * run_end) : bool :=
  negb (bool_decide (Py.strip r.1 = "")).

Definition reaches_files (r : string * run_end) : bool :=
  named r && match r.2 with BeforeFiles => false | _ => true end.

Definition session_of (r : string * run_end) : option TeamMonitor.session :=
  match r.2 with
  | InLoop s => if named r then Some s else None
  | _ => None
  end.

(** The merge a run makes at its end, when it reaches the loop. *)
Definition call_of_run (r : string * run_end) : option Master.call :=
  match session_of r with
  | Some s =>
      let self := run (TeamMonitor.session_events s) in
      Some {| Master.call_now := TeamMonitor.session_now s;
              Master.call_team := TeamMonitor.main_team_name r.1;
              Master.call_lane := LaneMonitor.total_lane (TeamMonitor.lane self);
              Master.call_collision :=
                CollisionMonitor.total_collisions (TeamMonitor.collision self);
              Master.call_redlight :=
                RedLightMonitor.total_red (TeamMonitor.redlight self) |}
  | None => None
  end.

(** The summary row a run appends to its history file. *)
Definition row_of_run (r : string * run_end) : option (list string) :=
  match session_of r with
  | Some s =>
      Some (TeamMonitor.summary_row (run (TeamMonitor.session_events s))
              (TeamMonitor.session_ts s))
  | None => None
  end.

(** The runs of the team whose key is [key], and the history file they
    leave. *)
Definition run_of (key : string) (r : string * run_end) : bool :=
  reaches_files r && String.eqb (TeamMonitor.main_team_name r.1) key.

Definition history (key : string) (runs : list (string * run_end))
  : option Master.csv_file :=
  match List.filter (run_of key) runs with
  | [] => None
  | team_runs => Some (TeamMonitor.team_header :: omap row_of_run team_runs)
  end.

End computed.

End FloatTeamMonitor.

(** ** Path following (Pure_pursuit_steering_control.py) *)

Module PurePursuit.

(** What [smooth_path] can raise on a path of locations. *)
Inductive error := ZeroDivisionError | IndexError.

(** [a / b] on floats. *)
Definition div (a b : Q) : error + Q :=
  if Qeq_bool b 0 then inl ZeroDivisionError else inr (a / b)%Q.

(** [int(v)] of a float: towards zero. *)
Definition int_of_float (v : Q) : Z := Z.quot (Qnum v) (Z.pos (Qden v)).

(** The point [carla.Location(x=p1.x + t * (p2.x - p1.x), ...)]. *)
Definition lerp (p1 p2 : Vector3D) (t : Q) : Vector3D :=
  {| x := (x p1 + t * (x p2 - x p1))%Q;
     y := (y p1 + t * (y p2 - y p1))%Q;
     z := (z p1 + t * (z p2 - z p1))%Q |}.

(** One turn of the outer loop of [smooth_path]: the points added for
    the segment from [p1] to [p2]; [distance] is
    [carla.Location.distance]. *)
Definition segment (distance : Vector3D → Vector3D → Q) (step : Q) (p1 p2 : Vector3D)
  : error + list Vector3D :=
  match div (distance p1 p2) step with
  | inr ratio =>
      let n := int_of_float ratio in
      inr (map (λ j, lerp p1 p2 (inject_Z j / inject_Z n)%Q) (seqZ 0 n))
  | inl e => inl e
  end.

(** The outer loop, on the locations of the path. *)
Fixpoint segments (distance : Vector3D → Vector3D → Q) (step : Q) (path : list Vector3D)
  : error + list Vector3D :=
  match path with
  | p1 :: ((p2 :: _) as rest) =>
      match segment distance step p1 p2 with
      | inr points =>
          match segments distance step rest with
          | inr more => inr (points ++ more)
          | inl e => inl e
          end
      | inl e => inl e
      end
  | _ => inr []
  end.

(** [smooth_path(path, step)]; [path[-1]] of an empty path is an
    [IndexError]. *)
Definition smooth_path (distance : Vector3D → Vector3D → Q) (path : list Vector3D)
    (step : Q) : error + list Vector3D :=
  match segments distance step path with
  | inr smoothed =>
      match last path with
      | Some p => inr (smoothed ++ [p])
      | None => inl IndexError
      end
  | inl e => inl e
  end.

(** Two locations with equal coordinates. *)
Definition same_location (p q : Vector3D) : Prop :=
  (x p == x q)%Q ∧ (y p == y q)%Q ∧ (z p == z q)%Q.

(** The pairs of consecutive locations of a path. *)
Fixpoint consecutive (path : list Vector3D) : list (Vector3D * Vector3D) :=
  match path with
  | p1 :: ((p2 :: _) as rest) => (p1, p2) :: consecutive rest
  | _ => []
  end.

End PurePursuit.

(** ** Sample readings

    A red light whose stop line is at the origin and faces along x, a
    vehicle 3 m past that line moving along x at [speed] m/s, inside the
    light's trigger volume, and the same vehicle under a green light. *)

Module Sample.

Definition stop_line : Waypoint :=
  {| wp_location := {| x := 0; y := 0; z := 0 |};
     wp_forward := {| x := 1; y := 0; z := 0 |} |}.

Definition light (state : TrafficLightState) : TrafficLight :=
  {| get_state := state;
     get_stop_waypoints := [stop_line];
     trigger_world := {| x := 0; y := 0; z := 0 |};
     trigger_extent := {| x := 5; y := 5; z := 5 |} |}.

Definition past_line (state : TrafficLightState) (speed : Q) : Vehicle :=
  {| get_location := {| x := 3; y := 0; z := 0 |};
     get_velocity := {| x := speed; y := 0; z := 0 |};
     get_traffic_light := Some (light state) |}.

(** A red light without stop waypoint, and a vehicle on a face of its
    trigger volume. *)
Definition bare_light : TrafficLight :=
  {| get_state := Red;
     get_stop_waypoints := [];
     trigger_world := {| x := 0; y := 0; z := 0 |};
     trigger_extent := {| x := 5; y := 5; z := 5 |} |}.

Definition on_face (speed : Q) : Vehicle :=
  {| get_location := {| x := 5; y := 0; z := 0 |};
     get_velocity := {| x := speed; y := 0; z := 0 |};
     get_traffic_light := Some bare_light |}.

(** Two sessions: one with a collision and a red light run, one
    without incident. *)
Definition crash : TeamMonitor.session :=
  {| TeamMonitor.session_events :=
       [ TeamMonitor.CollisionEvent {| x := 0; y := 0; z := 0 |} "static.prop.barrel";
         TeamMonitor.Tick (past_line Red 8) ];
     TeamMonitor.session_ts := "2025-01-01 10:00:00";
     TeamMonitor.session_now := "2025-01-01 10:00:01" |}.

Definition clean : TeamMonitor.session :=
  {| TeamMonitor.session_events := [TeamMonitor.TurnStatus true 100];
     TeamMonitor.session_ts := "2025-01-02 10:00:00";
     TeamMonitor.session_now := "2025-01-02 10:00:01" |}.

(** Three waypoints 2 m apart on the x axis, and the distance between
    two locations of that axis. *)
Definition waypoints : list Vector3D :=
  [ {| x := 0; y := 0; z := 0 |}; {| x := 2; y := 0; z := 0 |};
    {| x := 4; y := 0; z := 0 |} ].

Definition along_x (p q : Vector3D) : Q := Qabs (x q - x p).

(** The speed of a vehicle that moves along the x axis. *)
Definition speed_along_x (v : Vector3D) : Q := Qabs (x v).

End Sample.

(** * Properties of the embedding *)

(** ** [int] reads back what [str] prints *)

Section int_str.
Import Py.

Lemma all_digits_string_of_uint (d : Decimal.uint) :
  all_digits (NilEmpty.string_of_uint d) = true.
Proof. induction d; simpl; auto. Qed.

Lemma isdigit_not_space (c : ascii) : isdigit c = true → Py_ISSPACE c = false.
Proof.
  by destruct c as [[] [] [] [] [] [] [] []].
Qed.

Lemma isdigit_not_underscore (c : ascii) : isdigit c = true → Ascii.eqb c "_" = false.
Proof.
  by destruct c as [[] [] [] [] [] [] [] []].
Qed.

Lemma rstrip_digits (s : string) :
  all_digits s = true → rstrip_with Py_ISSPACE s = s.
Proof.
  induction s as [|c r IH]; [done|]. simpl. intros [Hc Hr]%andb_true_iff.
  rewrite IH by done. destruct r; [|done]. by rewrite isdigit_not_space.
Qed.

Lemma strip_digits (s : string) :
  all_digits s = true → strip_with Py_ISSPACE s = s.
Proof.
  intros H. unfold strip_with. destruct s as [|c r]; [done|].
  simpl in H. apply andb_true_iff in H as [Hc Hr].
  cbn [lstrip_with]. rewrite isdigit_not_space by done.
  apply rstrip_digits. simpl. by rewrite Hc.
Qed.

Lemma digits_of_digits (s : string) :
  all_digits s = true → digits_of true s = Some s.
Proof.
  induction s as [|c r IH]; [done|]. simpl. intros [Hc Hr]%andb_true_iff.
  by rewrite isdigit_not_underscore, IH.
Qed.

Lemma Z_of_digits_to_uint (p : positive) :
  Z_of_digits (NilEmpty.string_of_uint (Pos.to_uint p)) = Some (Z.pos p).
Proof.
  pose proof (all_digits_string_of_uint (Pos.to_uint p)) as Hd.
  pose proof (Unsigned.to_uint_nonnil p) as Hnil.
  unfold Z_of_digits.
  assert (digits_of false (NilEmpty.string_of_uint (Pos.to_uint p))
          = Some (NilEmpty.string_of_uint (Pos.to_uint p))) as ->.
  { destruct (NilEmpty.string_of_uint (Pos.to_uint p)) as [|c r] eqn:E.
    - by destruct (Pos.to_uint p).
    - simpl in *. apply andb_true_iff in Hd as [Hc Hr].
      by rewrite isdigit_not_underscore, digits_of_digits. }
  simpl.
  assert (NilEmpty.string_of_uint (Pos.to_uint p) = NilZero.string_of_uint (Pos.to_uint p)) as ->.
  { by destruct (Pos.to_uint p). }
  rewrite NilZero.usu by done. simpl.
  unfold Z.of_uint. by rewrite Unsigned.of_to.
Qed.

Lemma string_of_uint_to_uint (p : positive) :
  NilZero.string_of_uint (Pos.to_uint p) = NilEmpty.string_of_uint (Pos.to_uint p).
Proof. pose proof (Unsigned.to_uint_nonnil p). by destruct (Pos.to_uint p). Qed.

Lemma int_str (n : Z) : int (str n) = Some n.
Proof.
  unfold str, int. destruct n as [|p|p]; [done| |]; simpl;
    rewrite string_of_uint_to_uint;
    pose proof (all_digits_string_of_uint (Pos.to_uint p)) as Hd.
  - rewrite strip_digits by done.
    rewrite <- (Z_of_digits_to_uint p).
    destruct (NilEmpty.string_of_uint (Pos.to_uint p)) as [|c r] eqn:E.
    + by destruct (Pos.to_uint p).
    + simpl in Hd. apply andb_true_iff in Hd as [Hc _].
      by destruct c as [[] [] [] [] [] [] [] []].
  - unfold strip_with.
    change (lstrip_with Py_ISSPACE (String "-" ?r)) with (String "-" r).
    cbn [rstrip_with]. rewrite rstrip_digits by done.
    pose proof (Z_of_digits_to_uint p) as HZ.
    destruct (NilEmpty.string_of_uint (Pos.to_uint p)) as [|c r] eqn:E.
    + by destruct (Pos.to_uint p).
    + simpl. by rewrite HZ.
Qed.

End int_str.

(** ** Rational comparisons *)

Lemma Qltb_lt (a b : Q) : Qltb a b = true ↔ (a < b)%Q.
Proof.
  unfold Qltb. rewrite negb_true_iff. split.
  - intros H. apply Qnot_le_lt. intros Hle.
    apply Qle_bool_iff in Hle. congruence.
  - intros H. destruct (Qle_bool b a) eqn:E; [|done].
    apply Qle_bool_iff in E. by apply Qlt_not_le in H.
Qed.

Lemma Qltb_ge (a b : Q) : Qltb a b = false ↔ (b <= a)%Q.
Proof.
  unfold Qltb. rewrite negb_false_iff. apply Qle_bool_iff.
Qed.

(** ** Collision zones *)

Section collision_zones.
Import CollisionMonitor.

Lemma in_zone_lt (loc zone : Vector3D) :
  in_zone loc zone = true ↔ (euclidean_distance_sq loc zone < sq ZONE_RADIUS)%Q.
Proof. apply Qltb_lt. Qed.

(** The clean-up that opens [_on_collision] keeps the zones within the
    radius, so the [any] test that follows sees a zone exactly when the
    monitor had one within the radius before the call. *)
Lemma existsb_filter_same {A} (p : A → bool) (l : list A) :
  existsb p (List.filter p l) = existsb p l.
Proof.
  induction l as [|a l IH]; [done|]. simpl.
  destruct (p a) eqn:E; simpl; by rewrite ?E, ?IH.
Qed.

Lemma filter_none {A} (p : A → bool) (l : list A) :
  existsb p l = false → List.filter p l = [].
Proof.
  induction l as [|a l IH]; [done|]. simpl.
  destruct (p a); simpl; [done|]. apply IH.
Qed.

(** A collision that no zone absorbs is counted once: one of the two
    counters goes up by one, chosen by the ["vehicle"] test alone, and
    the zone list becomes the vehicle's location. *)
Lemma _on_collision_counted (self : t) (loc : Vector3D) (type_id : string) :
  existsb (in_zone loc) (zones self) = false →
  let self' := _on_collision self loc type_id in
  zones self' = [loc] ∧
  (if Py.contains "vehicle" type_id
   then dynamic_count self' = (dynamic_count self + 1)%Z ∧
        static_count self' = static_count self
   else static_count self' = (static_count self + 1)%Z ∧
        dynamic_count self' = dynamic_count self).
Proof.
  intros Hfree. unfold _on_collision. simpl.
  rewrite existsb_filter_same, Hfree, (filter_none _ _ Hfree).
  by destruct (Py.contains "vehicle" type_id).
Qed.

Lemma _on_collision_absorbed (self : t) (loc : Vector3D) (type_id : string) :
  existsb (in_zone loc) (zones self) = true →
  _on_collision self loc type_id = _cleanup_zones self loc.
Proof.
  intros Hin. unfold _on_collision. simpl.
  by rewrite existsb_filter_same, Hin.
Qed.

End collision_zones.

(** ** Collision zones on computed distances *)

Section computed_zones.
Import CollisionMonitor FloatCollisionMonitor.
Variable euclidean_distance : Vector3D → Vector3D → Q.

Lemma computed_in_zone_lt (loc zone : Vector3D) :
  in_zone euclidean_distance loc zone = true ↔
  (euclidean_distance loc zone < ZONE_RADIUS)%Q.
Proof. apply Qltb_lt. Qed.

Lemma computed_in_zone_ge (loc zone : Vector3D) :
  in_zone euclidean_distance loc zone = false ↔
  (ZONE_RADIUS <= euclidean_distance loc zone)%Q.
Proof. apply Qltb_ge. Qed.

(** A collision that no zone absorbs is counted once, and the zone
    list becomes the vehicle's location. *)
Lemma computed_on_collision_counted (self : t) (loc : Vector3D) (type_id : string) :
  existsb (in_zone euclidean_distance loc) (zones self) = false →
  let self' := _on_collision euclidean_distance self loc type_id in
  zones self' = [loc] ∧
  (if Py.contains "vehicle" type_id
   then dynamic_count self' = (dynamic_count self + 1)%Z ∧
        static_count self' = static_count self
   else static_count self' = (static_count self + 1)%Z ∧
        dynamic_count self' = dynamic_count self).
Proof.
  intros Hfree. unfold _on_collision. simpl.
  rewrite existsb_filter_same, Hfree, (filter_none _ _ Hfree).
  by destruct (Py.contains "vehicle" type_id).
Qed.

Lemma computed_on_collision_absorbed (self : t) (loc : Vector3D) (type_id : string) :
  existsb (in_zone euclidean_distance loc) (zones self) = true →
  _on_collision euclidean_distance self loc type_id
  = _cleanup_zones euclidean_distance self loc.
Proof.
  intros Hin. unfold _on_collision. simpl.
  by rewrite existsb_filter_same, Hin.
Qed.

Lemma computed_total_collisions_counted (self : t) (loc : Vector3D) (type_id : string) :
  existsb (in_zone euclidean_distance loc) (zones self) = false →
  total_collisions (_on_collision euclidean_distance self loc type_id)
  = (total_collisions self + 1)%Z.
Proof.
  intros Hfree.
  destruct (computed_on_collision_counted self loc type_id Hfree) as [_ H].
  unfold total_collisions.
  destruct (Py.contains "vehicle" type_id); destruct H as [-> ->]; lia.
Qed.

(** From a fresh monitor the zone list never holds more than one zone. *)
Lemma computed_run_step_zones (self : t) (s : step) :
  (length (zones self) ≤ 1)%nat →
  (length (zones (run_step euclidean_distance self s)) ≤ 1)%nat.
Proof.
  intros Hlen. destruct s as [loc type_id|loc]; simpl.
  - destruct (existsb (in_zone euclidean_distance loc) (zones self)) eqn:E.
    + rewrite computed_on_collision_absorbed by done. simpl.
      etrans; [apply List.filter_length_le|done].
    + by destruct (computed_on_collision_counted self loc type_id E) as [-> _].
  - etrans; [apply List.filter_length_le|done].
Qed.

Lemma computed_run_zones (steps : list step) :
  (length (zones (run euclidean_distance steps)) ≤ 1)%nat.
Proof.
  unfold run, run_from.
  generalize init, (Nat.le_0_l 1 : (length (zones init) ≤ 1)%nat).
  induction steps as [|s steps IH]; intros self Hlen; [done|].
  simpl. apply IH. by apply computed_run_step_zones.
Qed.

(** Claim C4, as amended.  Two collision events at locations [p1] and
    [p2], with no loop tick between them, where the first event is itself
    counted (the code finds no zone of the monitor within [ZONE_RADIUS]
    of [p1]): the first event adds one to the collision total and leaves
    [p1] as the only zone; when the distance the code computes from [p2]
    to that zone, [euclidean_distance(p2, p1)], is strictly below
    [ZONE_RADIUS] the second event changes nothing at all (no counter,
    no zone); and the test is strict, for when the computed distance is
    [ZONE_RADIUS] or more the second event is counted too. *)
Theorem zone_dedup_first_counted (self : t) (p1 p2 : Vector3D) (a1 a2 : string) :
  existsb (in_zone euclidean_distance p1) (zones self) = false →
  let s1 := _on_collision euclidean_distance self p1 a1 in
  let s2 := _on_collision euclidean_distance s1 p2 a2 in
  total_collisions s1 = (total_collisions self + 1)%Z ∧
  zones s1 = [p1] ∧
  ((euclidean_distance p2 p1 < ZONE_RADIUS)%Q → s2 = s1) ∧
  ((ZONE_RADIUS <= euclidean_distance p2 p1)%Q →
     total_collisions s2 = (total_collisions self + 2)%Z ∧ zones s2 = [p2]).
Proof.
  intros Hfree s1 s2.
  destruct (computed_on_collision_counted self p1 a1 Hfree) as [Hz _].
  pose proof (computed_total_collisions_counted self p1 a1 Hfree) as Ht.
  fold s1 in Hz, Ht. split; [done|]. split; [done|]. split.
  - intros Hnear%computed_in_zone_lt.
    unfold s2. rewrite computed_on_collision_absorbed.
    + unfold _cleanup_zones. rewrite Hz. simpl. rewrite Hnear.
      destruct s1; simpl in *; by subst.
    + rewrite Hz. simpl. by rewrite Hnear.
  - intros Hfar%computed_in_zone_ge.
    assert (existsb (in_zone euclidean_distance p2) (zones s1) = false) as Hfree2.
    { rewrite Hz. simpl. by rewrite Hfar. }
    destruct (computed_on_collision_counted s1 p2 a2 Hfree2) as [Hz2 _].
    split; [|done].
    unfold s2. rewrite computed_total_collisions_counted by done. lia.
Qed.

(** Claim C5, as amended.  [_cleanup_zones] keeps exactly the zones
    whose distance to the current location, as the code computes it, is
    strictly below [ZONE_RADIUS]; it drops every zone at a computed
    distance of [ZONE_RADIUS] or more, and leaves the counters alone.
    So once the vehicle is at a computed distance of [ZONE_RADIUS] or
    more from the zone of a monitor reached from a fresh one and a loop
    tick has run, no zone is left, and a collision back at the zone's
    location is counted as a new incident. *)
Theorem prune_and_reactivate (steps : list step) (loc : Vector3D) :
  let self := run euclidean_distance steps in
  (∀ zone, zone ∈ zones (_cleanup_zones euclidean_distance self loc) ↔
     zone ∈ zones self ∧ (euclidean_distance loc zone < ZONE_RADIUS)%Q) ∧
  (∀ zone, zone ∈ zones self →
     (ZONE_RADIUS <= euclidean_distance loc zone)%Q →
     zone ∉ zones (_cleanup_zones euclidean_distance self loc)) ∧
  total_collisions (_cleanup_zones euclidean_distance self loc) = total_collisions self ∧
  (∀ zone type_id, zone ∈ zones self →
     (ZONE_RADIUS <= euclidean_distance loc zone)%Q →
     let pruned := _cleanup_zones euclidean_distance self loc in
     let again := _on_collision euclidean_distance pruned zone type_id in
     zones pruned = [] ∧
     total_collisions again = (total_collisions self + 1)%Z ∧
     zones again = [zone]).
Proof.
  intros self.
  assert (∀ zone, zone ∈ zones (_cleanup_zones euclidean_distance self loc) ↔
            zone ∈ zones self ∧ (euclidean_distance loc zone < ZONE_RADIUS)%Q)
    as Hkeep.
  { intros zone. simpl. by rewrite !list_elem_of_In, filter_In, computed_in_zone_lt. }
  split; [done|]. split; [|split; [done|]].
  - intros zone _ Hfar [_ Hnear]%Hkeep. by apply Qlt_not_le in Hnear.
  - intros zone type_id Hin Hfar pruned again.
    assert (zones pruned = []) as Hnil.
    { pose proof (computed_run_zones steps) as Hlen. fold self in Hlen.
      unfold pruned. simpl.
      destruct (zones self) as [|z0 [|z1 l]]; simpl in *; [done| |lia].
      apply list_elem_of_singleton in Hin as ->.
      apply computed_in_zone_ge in Hfar. by rewrite Hfar. }
    assert (existsb (in_zone euclidean_distance zone) (zones pruned) = false) as Hfree
      by (by rewrite Hnil).
    split; [done|]. split.
    + unfold again. by rewrite computed_total_collisions_counted.
    + by apply computed_on_collision_counted.
Qed.

End computed_zones.

Lemma zone_dedup_first_counted_witness :
  let p1 := {| x := 10; y := 4; z := 0 |} in
  let p2 := {| x := 11; y := 4; z := 0 |} in
  let s1 :=
    FloatCollisionMonitor._on_collision Sample.along_x CollisionMonitor.init p1
      "static.prop.streetbarrier" in
  FloatCollisionMonitor._on_collision Sample.along_x s1 p2 "static.prop.streetbarrier" = s1 ∧
  CollisionMonitor.total_collisions s1 = 1%Z.
Proof.
  intros p1 p2 s1.
  destruct (zone_dedup_first_counted Sample.along_x CollisionMonitor.init p1 p2
              "static.prop.streetbarrier" "static.prop.streetbarrier" eq_refl)
    as (Ht & _ & Hnear & _).
  split; [apply Hnear; reflexivity | exact Ht].
Defined.

Lemma prune_and_reactivate_witness :
  let zone := {| x := 10; y := 4; z := 0 |} in
  let away := {| x := 30; y := 4; z := 0 |} in
  let self :=
    FloatCollisionMonitor.run Sample.along_x
      [CollisionMonitor.Collision zone "static.prop.streetbarrier"] in
  let pruned := FloatCollisionMonitor._cleanup_zones Sample.along_x self away in
  let again :=
    FloatCollisionMonitor._on_collision Sample.along_x pruned zone "vehicle.audi.tt" in
  CollisionMonitor.zones pruned = [] ∧
  CollisionMonitor.total_collisions again = 2%Z ∧
  CollisionMonitor.zones again = [zone].
Proof.
  intros zone away self pruned again.
  destruct (prune_and_reactivate Sample.along_x
              [CollisionMonitor.Collision zone "static.prop.streetbarrier"] away)
    as (_ & _ & _ & Hagain).
  apply (Hagain zone "vehicle.audi.tt"); [by left | by vm_compute].
Defined.

(** ** Collision claims: inputs at which the claims fail, and classification *)

Section collision_claims.
Import CollisionMonitor.

(** Claim C4 as stated fails after an earlier incident: a zone at the
    origin absorbs an event at (1.5, 0); the next event, at (3, 0), is
    1.5 away from that event, below [ZONE_RADIUS], and no loop tick ran
    between the two, yet it is counted and leaves a new zone. *)
Lemma zone_dedup_counterexample :
  let s0 := _on_collision init {| x := 0; y := 0; z := 0 |} "static.prop.streetbarrier" in
  let p1 := {| x := 1.5; y := 0; z := 0 |} in
  let p2 := {| x := 3; y := 0; z := 0 |} in
  let s1 := _on_collision s0 p1 "static.prop.streetbarrier" in
  let s2 := _on_collision s1 p2 "static.prop.streetbarrier" in
  (euclidean_distance_sq p1 p2 < sq ZONE_RADIUS)%Q ∧
  static_count s1 = static_count s0 ∧
  static_count s2 = (static_count s1 + 1)%Z ∧
  zones s1 = [{| x := 0; y := 0; z := 0 |}] ∧
  zones s2 = [p2].
Proof. by vm_compute. Qed.

(** Claim C5 as stated fails on the boundary: a zone at a distance of
    exactly [ZONE_RADIUS], which does not exceed it, is dropped. *)
Lemma prune_counterexample :
  let zone := {| x := 0; y := 0; z := 0 |} in
  let loc := {| x := 2; y := 0; z := 0 |} in
  let self := _on_collision init zone "static.prop.streetbarrier" in
  zones self = [zone] ∧
  (euclidean_distance_sq loc zone == sq ZONE_RADIUS)%Q ∧
  ¬ (sq ZONE_RADIUS < euclidean_distance_sq loc zone)%Q ∧
  zones (_cleanup_zones self loc) = [].
Proof. by vm_compute. Qed.

(** Claim C6 at a pedestrian.  [_on_collision] tests the type tag for
    ["vehicle"] only, so a walker that no zone absorbs goes to the
    static counter, whereas the stand-alone logger's [on_collision]
    classifies the same tag as a moving object. *)
Theorem walker_counted_static (loc : Vector3D) :
  let self := _on_collision init loc "walker.pedestrian.0001" in
  static_count self = 1%Z ∧
  dynamic_count self = 0%Z ∧
  zones self = [loc] ∧
  Py.contains "walker" "walker.pedestrian.0001" = true ∧
  SeparateCollision.obj_type "walker.pedestrian.0001" = "running".
Proof. done. Qed.

End collision_claims.

(** ** Counters kept in a [defaultdict(int)] *)

Lemma count_incr_eq (d : gmap string Z) (key : string) :
  count (incr key d) key = (count d key + 1)%Z.
Proof. unfold count, incr. by rewrite lookup_insert_eq. Qed.

Lemma count_incr_ne (d : gmap string Z) (key key' : string) :
  key ≠ key' → count (incr key d) key' = count d key'.
Proof. intros Hne. unfold count, incr. by rewrite lookup_insert_ne. Qed.

(** ** Lane crossings *)

Section lane_claims.
Import LaneMonitor.

Lemma _on_lane_violation_suppressed (self : t) (markings : list LaneMarkingType) (now : Q) :
  (now - last_turn_time self < 5)%Q → _on_lane_violation self markings now = self.
Proof. intros H%Qltb_lt. unfold _on_lane_violation. by rewrite H. Qed.

Lemma counts_record_violation (self : t) (key : string) :
  counts (record_violation self key) =
    (if bool_decide (key = "illegal_double_solid_cross")
     then (count (violations self) "illegal_double_solid_cross" + 1)%Z
     else count (violations self) "illegal_double_solid_cross",
     if bool_decide (key = "illegal_solid_cross")
     then (count (violations self) "illegal_solid_cross" + 1)%Z
     else count (violations self) "illegal_solid_cross",
     if bool_decide (key = "unjustified_dashed_cross")
     then (count (violations self) "unjustified_dashed_cross" + 1)%Z
     else count (violations self) "unjustified_dashed_cross").
Proof.
  unfold counts, record_violation. simpl.
  repeat case_bool_decide; subst;
    rewrite ?count_incr_eq, ?count_incr_ne by done; try done.
  all: repeat f_equal; by rewrite count_incr_ne.
Qed.

(** An event outside the suppression window is classified by the
    if/elif chain alone. *)
Lemma _on_lane_violation_armed (self : t) (markings : list LaneMarkingType) (now : Q) :
  (5 <= now - last_turn_time self)%Q →
  _on_lane_violation self markings now =
    if bool_decide (SolidSolid ∈ markings) then
      record_violation self "illegal_double_solid_cross"
    else if bool_decide (Solid ∈ markings) then
      record_violation self "illegal_solid_cross"
    else if bool_decide (Broken ∈ markings) then
      record_violation self "unjustified_dashed_cross"
    else self.
Proof. intros H%Qltb_ge. unfold _on_lane_violation. by rewrite H. Qed.

Lemma total_lane_record_violation (self : t) (key : string) :
  key ∈ ["illegal_double_solid_cross"; "illegal_solid_cross"; "unjustified_dashed_cross"] →
  total_lane (record_violation self key) = (total_lane self + 1)%Z.
Proof.
  intros Hkey. unfold total_lane, record_violation. simpl.
  repeat (apply elem_of_cons in Hkey as [->|Hkey];
          [rewrite ?count_incr_eq, ?count_incr_ne by done; lia|]).
  by apply elem_of_nil in Hkey.
Qed.

(** Claim C7.  A lane-crossing event that the junction window does not
    suppress counts only the most severe marking among those crossed:
    double solid before solid before broken; one counter goes up by one
    and the other two keep their value, and an event with none of the
    three markings counts nothing.  An event crossing a solid and a
    broken line adds to the solid counter only.  No event, suppressed or
    not, adds more than one to the lane total. *)
Theorem lane_severity_priority (self : t) (markings : list LaneMarkingType) (now : Q) :
  let self' := _on_lane_violation self markings now in
  let '(double_solid, solid, dashed) := counts self in
  ((5 <= now - last_turn_time self)%Q →
     (SolidSolid ∈ markings →
        counts self' = ((double_solid + 1)%Z, solid, dashed)) ∧
     (SolidSolid ∉ markings → Solid ∈ markings →
        counts self' = (double_solid, (solid + 1)%Z, dashed)) ∧
     (SolidSolid ∉ markings → Solid ∉ markings → Broken ∈ markings →
        counts self' = (double_solid, solid, (dashed + 1)%Z)) ∧
     (SolidSolid ∉ markings → Solid ∉ markings → Broken ∉ markings →
        self' = self) ∧
     (markings = [Solid; Broken] →
        counts self' = (double_solid, (solid + 1)%Z, dashed))) ∧
  (total_lane self ≤ total_lane self' ≤ total_lane self + 1)%Z.
Proof.
  cbv zeta. unfold counts at 1. cbv iota beta. split.
  - intros Harmed. rewrite _on_lane_violation_armed by done. split_and!.
    + intros Hss. rewrite bool_decide_eq_true_2 by done.
      by rewrite counts_record_violation.
    + intros Hss Hs. rewrite bool_decide_eq_false_2, bool_decide_eq_true_2 by done.
      by rewrite counts_record_violation.
    + intros Hss Hs Hb.
      rewrite !bool_decide_eq_false_2, bool_decide_eq_true_2 by done.
      by rewrite counts_record_violation.
    + intros Hss Hs Hb. by rewrite !bool_decide_eq_false_2.
    + intros ->.
      change (bool_decide (SolidSolid ∈ [Solid; Broken])) with false.
      change (bool_decide (Solid ∈ [Solid; Broken])) with true.
      cbv iota. by rewrite counts_record_violation.
  - destruct (Qlt_le_dec (now - last_turn_time self) 5) as [Hin|Harmed].
    + rewrite _on_lane_violation_suppressed by done. lia.
    + rewrite _on_lane_violation_armed by done.
      repeat case_bool_decide;
        rewrite ?total_lane_record_violation by (by repeat constructor); lia.
Qed.

Lemma lane_severity_priority_witness :
  counts (_on_lane_violation init [Solid; Broken] 1700000000) = (0, 1, 0)%Z.
Proof.
  assert (5 <= 1700000000 - last_turn_time init)%Q as Harmed by done.
  pose proof (lane_severity_priority init [Solid; Broken] 1700000000) as [H _].
  simpl in H. destruct (H Harmed) as (_ & _ & _ & _ & Hsb). by apply Hsb.
Defined.

(** Claim C8, as amended.  [update_turn_status] sets [last_turn_time]
    to the current time exactly when the vehicle's nearest waypoint is
    in a junction, and touches no counter.  A lane-crossing event at
    time [now] is suppressed, leaving the monitor as it is, when
    [now - last_turn_time < 5.0], and otherwise adds one to the lane
    total as soon as it crosses a double solid, solid or broken
    marking.  After a junction tick at [t_junction] the event is thus
    suppressed in the half-open window [now - 5.0 < t_junction], and a
    junction tick exactly 5.0 s (or more) before the event does not
    suppress it. *)
Theorem junction_suppression_window
    (self : t) (is_junction : bool) (t_junction now : Q)
    (markings : list LaneMarkingType) :
  let ticked := update_turn_status self is_junction t_junction in
  let counted := SolidSolid ∈ markings ∨ Solid ∈ markings ∨ Broken ∈ markings in
  last_turn_time ticked = (if is_junction then t_junction else last_turn_time self) ∧
  violations ticked = violations self ∧
  ((now - last_turn_time ticked < 5)%Q →
     _on_lane_violation ticked markings now = ticked) ∧
  ((5 <= now - last_turn_time ticked)%Q → counted →
     total_lane (_on_lane_violation ticked markings now) = (total_lane ticked + 1)%Z) ∧
  (is_junction = true → (now - 5 < t_junction)%Q →
     _on_lane_violation ticked markings now = ticked) ∧
  (is_junction = true → (t_junction <= now - 5)%Q → counted →
     total_lane (_on_lane_violation ticked markings now) = (total_lane self + 1)%Z).
Proof.
  intros ticked counted.
  assert (∀ s : t, (5 <= now - last_turn_time s)%Q → counted →
            total_lane (_on_lane_violation s markings now) = (total_lane s + 1)%Z)
    as Hcounted.
  { intros s Harmed Hkind. rewrite _on_lane_violation_armed by done.
    repeat case_bool_decide;
      rewrite ?total_lane_record_violation by (by repeat constructor); try done.
    unfold counted in Hkind. tauto. }
  split; [by destruct is_junction|]. split; [by destruct is_junction|].
  split; [apply _on_lane_violation_suppressed|].
  split; [apply Hcounted|].
  unfold ticked, update_turn_status. split; intros ->.
  - intros Hin. apply _on_lane_violation_suppressed. simpl. lra.
  - intros Hout Hkind. rewrite Hcounted; [done| simpl; lra | done].
Qed.

Lemma junction_suppression_window_witness :
  let ticked := update_turn_status init true 1700000000 in
  _on_lane_violation ticked [Solid] 1700000003 = ticked.
Proof.
  intros ticked.
  apply (junction_suppression_window init true 1700000000 1700000003 [Solid]);
    reflexivity.
Defined.

(** Claim C8 as stated fails on the closed end of the window: a
    junction tick exactly 5.0 s before a crossing of a solid line lies
    in [[now - 5.0, now]], yet the crossing is counted. *)
Lemma junction_window_counterexample :
  let t_junction := 1700000000%Q in
  let now := 1700000005%Q in
  let ticked := update_turn_status init true t_junction in
  let self' := _on_lane_violation ticked [Solid] now in
  last_turn_time ticked = t_junction ∧
  (now - 5 <= t_junction)%Q ∧ (t_junction <= now)%Q ∧
  counts ticked = (0, 0, 0)%Z ∧
  counts self' = (0, 1, 0)%Z.
Proof. by vm_compute. Qed.

End lane_claims.

(** ** Red lights on computed speeds and dot products *)

Section computed_red_lights.
Import RedLightMonitor FloatRedLightMonitor.
Variable get_speed : Vector3D → Q.
Variable dot : Vector3D → Vector3D → Vector3D → Q.
Variable sub : Q → Q → Q.

Lemma computed_red_violation_stop_line
    (dot' : Vector3D → Vector3D → Vector3D → Q) (sub' : Q → Q → Q)
    (veh : Vehicle) (tl : TrafficLight) (wp : Waypoint) (wps : list Waypoint) :
  get_stop_waypoints tl = wp :: wps →
  red_violation get_speed dot' sub' veh tl =
    if Qltb 0 (dot' (get_location veh) (wp_location wp) (wp_forward wp))
       && Qltb 1 (get_speed (get_velocity veh))
    then Some "StopWaypointPassed" else None.
Proof. intros Hwp. unfold red_violation, get_stop_data. by rewrite Hwp. Qed.

Lemma computed_tick_past_stop_line_moving (self : t) (veh : Vehicle) :
  past_stop_line_moving get_speed dot veh →
  tick get_speed dot sub self veh =
    if violation_logged self then self
    else {| violation_logged := true;
            violations := incr "StopWaypointPassed" (violations self) |}.
Proof.
  intros (tl & wp & wps & Htl & Hred & Hwp & Hdot%Qltb_lt & Hspeed%Qltb_lt).
  unfold tick. rewrite Htl, bool_decide_eq_false_2 by (by intros []).
  rewrite (computed_red_violation_stop_line _ _ _ _ _ _ Hwp).
  rewrite Hdot, Hspeed. simpl.
  by destruct (violation_logged self).
Qed.

Lemma computed_tick_no_red_light (self : t) (veh : Vehicle) :
  no_red_light veh →
  tick get_speed dot sub self veh
  = {| violation_logged := false; violations := violations self |}.
Proof.
  unfold no_red_light, tick. destruct (get_traffic_light veh) as [tl|]; [|done].
  intros Hne. by rewrite bool_decide_eq_true_2.
Qed.

(** A tick never counts while the flag is set. *)
Lemma computed_tick_logged (self : t) (veh : Vehicle) :
  violation_logged self = true →
  violations (tick get_speed dot sub self veh) = violations self.
Proof.
  intros Hlogged. unfold tick.
  destruct (get_traffic_light veh) as [tl|]; [|done].
  case_bool_decide; [done|].
  destruct (red_violation get_speed dot sub veh tl); [|done]. by rewrite Hlogged.
Qed.

(** Once logged, the ticks of the same dwell leave the monitor alone. *)
Lemma computed_ticks_logged_dwell (self : t) (dwell : list Vehicle) :
  violation_logged self = true →
  Forall (past_stop_line_moving get_speed dot) dwell →
  ticks get_speed dot sub self dwell = self.
Proof.
  intros Hlogged Hdwell. induction Hdwell as [|veh dwell Hveh _ IH]; [done|].
  unfold ticks in *. simpl.
  by rewrite (computed_tick_past_stop_line_moving _ _ Hveh), Hlogged.
Qed.

(** A dwell of one tick or more counts once. *)
Lemma computed_ticks_dwell (self : t) (dwell : list Vehicle) :
  violation_logged self = false →
  dwell ≠ [] →
  Forall (past_stop_line_moving get_speed dot) dwell →
  ticks get_speed dot sub self dwell =
    {| violation_logged := true;
       violations := incr "StopWaypointPassed" (violations self) |}.
Proof.
  intros Hidle Hne Hdwell. destruct Hdwell as [|veh dwell Hveh Hdwell]; [done|].
  unfold ticks. simpl. rewrite (computed_tick_past_stop_line_moving _ _ Hveh), Hidle.
  by apply computed_ticks_logged_dwell.
Qed.

Lemma computed_ticks_no_red_light (self : t) (gap : list Vehicle) :
  gap ≠ [] →
  Forall no_red_light gap →
  ticks get_speed dot sub self gap
  = {| violation_logged := false; violations := violations self |}.
Proof.
  intros Hne Hgap. revert self.
  induction Hgap as [|veh gap Hveh Hgap IH]; [done|]. intros self.
  unfold ticks in *. simpl. rewrite (computed_tick_no_red_light _ _ Hveh).
  destruct gap as [|veh' gap]; [done|]. by rewrite IH.
Qed.

Lemma computed_ticks_app (self : t) (vehs1 vehs2 : list Vehicle) :
  ticks get_speed dot sub self (vehs1 ++ vehs2)
  = ticks get_speed dot sub (ticks get_speed dot sub self vehs1) vehs2.
Proof. apply fold_left_app. Qed.

(** Claim C3, as amended.  While the light is red and has a stop
    waypoint, a vehicle for which the code computes [dot > 0] and
    [speed > 1.0] at every tick, for one tick or more (so at any tick
    rate), adds exactly one to the [StopWaypointPassed] counter and
    nothing to [TriggerVolume], and leaves the flag set; while the flag
    is set no tick, whatever it reads, changes a counter; and after one
    tick or more without a red light, a second such dwell adds one
    again. *)
Theorem red_light_debounce (self : t) (dwell1 gap dwell2 : list Vehicle) :
  violation_logged self = false →
  dwell1 ≠ [] → Forall (past_stop_line_moving get_speed dot) dwell1 →
  gap ≠ [] → Forall no_red_light gap →
  dwell2 ≠ [] → Forall (past_stop_line_moving get_speed dot) dwell2 →
  let s1 := ticks get_speed dot sub self dwell1 in
  let s2 := ticks get_speed dot sub s1 (gap ++ dwell2) in
  count (violations s1) "StopWaypointPassed"
    = (count (violations self) "StopWaypointPassed" + 1)%Z ∧
  count (violations s1) "TriggerVolume" = count (violations self) "TriggerVolume" ∧
  violation_logged s1 = true ∧
  (∀ veh, violations (tick get_speed dot sub s1 veh) = violations s1) ∧
  count (violations s2) "StopWaypointPassed"
    = (count (violations self) "StopWaypointPassed" + 2)%Z ∧
  count (violations s2) "TriggerVolume" = count (violations self) "TriggerVolume".
Proof.
  intros Hidle Hne1 Hdwell1 Hneg Hgap Hne2 Hdwell2 s1 s2.
  assert (s1 = {| violation_logged := true;
                  violations := incr "StopWaypointPassed" (violations self) |})
    as Hs1 by (by apply computed_ticks_dwell).
  assert (s2 = {| violation_logged := true;
                  violations := incr "StopWaypointPassed" (violations s1) |})
    as Hs2.
  { unfold s2. rewrite computed_ticks_app, (computed_ticks_no_red_light _ _ Hneg Hgap).
    by rewrite computed_ticks_dwell. }
  rewrite Hs2, Hs1. simpl.
  rewrite !count_incr_eq, !count_incr_ne by done.
  split_and!; try done; try lia.
  intros veh. by apply computed_tick_logged.
Qed.

(** Claim C10.  On a tick where the influencing light is red and has a
    stop waypoint, the trigger volume plays no part: the monitor and
    the stand-alone logger end the tick in the same state whatever the
    trigger volume is and whatever the subtractions of its test give.
    If moreover the [dot] the code computes is not above 0, or the
    speed it computes is not above 1.0, nothing is recorded and the
    flag is cleared, wherever the vehicle is with respect to the
    trigger volume.  [script_dot] is the [dot] of the stand-alone
    logger, which subtracts coordinate by coordinate. *)
Theorem stop_waypoint_precedence
    (script_dot : Vector3D → Vector3D → Vector3D → Q)
    (self : t) (script : TrafficSignalScript.t)
    (veh : Vehicle) (tl : TrafficLight) (wp : Waypoint) (wps : list Waypoint) :
  get_traffic_light veh = Some tl →
  get_state tl = Red →
  get_stop_waypoints tl = wp :: wps →
  (∀ world extent sub',
     tick get_speed dot sub' self (with_trigger_volume world extent veh)
       = tick get_speed dot sub self veh ∧
     loop_body get_speed script_dot sub' script (with_trigger_volume world extent veh)
       = loop_body get_speed script_dot sub script veh) ∧
  ((dot (get_location veh) (wp_location wp) (wp_forward wp) <= 0)%Q ∨
   (get_speed (get_velocity veh) <= 1)%Q →
   tick get_speed dot sub self veh
     = {| violation_logged := false; violations := violations self |}) ∧
  ((script_dot (get_location veh) (wp_location wp) (wp_forward wp) <= 0)%Q ∨
   (get_speed (get_velocity veh) <= 1)%Q →
   loop_body get_speed script_dot sub script veh =
     {| TrafficSignalScript.violation_logged := false;
        TrafficSignalScript.csv_rows := TrafficSignalScript.csv_rows script |}).
Proof.
  intros Htl Hred Hwp. split_and!.
  - intros world extent sub'.
    unfold tick, loop_body, with_trigger_volume. simpl.
    rewrite Htl, Hred.
    by rewrite !(computed_red_violation_stop_line _ _ _ _ wp wps).
  - intros Hno.
    assert (red_violation get_speed dot sub veh tl = None) as Hnone.
    { rewrite (computed_red_violation_stop_line _ _ _ _ _ _ Hwp).
      destruct Hno as [Hdot%Qltb_ge | Hspeed%Qltb_ge].
      - by rewrite Hdot.
      - rewrite Hspeed. by rewrite andb_false_r. }
    unfold tick. rewrite Htl, Hred. simpl. by rewrite Hnone.
  - intros Hno.
    assert (red_violation get_speed script_dot sub veh tl = None) as Hnone.
    { rewrite (computed_red_violation_stop_line _ _ _ _ _ _ Hwp).
      destruct Hno as [Hdot%Qltb_ge | Hspeed%Qltb_ge].
      - by rewrite Hdot.
      - rewrite Hspeed. by rewrite andb_false_r. }
    unfold loop_body. rewrite Htl, Hred. simpl. by rewrite Hnone.
Qed.

End computed_red_lights.

Lemma red_light_debounce_witness :
  let ticks := FloatRedLightMonitor.ticks Sample.speed_along_x dot_past Qminus in
  let moving := Sample.past_line Red 8 in
  let green := Sample.past_line Green 8 in
  count (RedLightMonitor.violations (ticks RedLightMonitor.init [moving; moving; moving]))
    "StopWaypointPassed" = 1%Z ∧
  count (RedLightMonitor.violations
           (ticks RedLightMonitor.init ([moving; moving; moving] ++ [green] ++ [moving])))
    "StopWaypointPassed" = 2%Z.
Proof.
  intros ticks moving green.
  assert (FloatRedLightMonitor.past_stop_line_moving Sample.speed_along_x dot_past moving)
    as Hmoving.
  { by exists (Sample.light Red), Sample.stop_line, []. }
  assert (no_red_light green) as Hgreen by done.
  assert (Forall (FloatRedLightMonitor.past_stop_line_moving Sample.speed_along_x dot_past)
            [moving; moving; moving]) as Hdwell1
    by (by repeat constructor).
  assert (Forall (FloatRedLightMonitor.past_stop_line_moving Sample.speed_along_x dot_past)
            [moving]) as Hdwell2
    by (by repeat constructor).
  assert (Forall no_red_light [green]) as Hgap by (by repeat constructor).
  pose proof (red_light_debounce Sample.speed_along_x dot_past Qminus
                RedLightMonitor.init [moving; moving; moving] [green] [moving]
                eq_refl ltac:(done) Hdwell1 ltac:(done) Hgap ltac:(done) Hdwell2)
    as (H1 & _ & _ & _ & H2 & _).
  split; [exact H1|]. unfold ticks. rewrite computed_ticks_app. exact H2.
Defined.

Lemma stop_waypoint_precedence_witness :
  let veh := Sample.past_line Red (1 # 2) in
  FloatRedLightMonitor.is_inside_trigger_box Qminus veh (Sample.light Red) = true ∧
  FloatRedLightMonitor.tick Sample.speed_along_x dot_past Qminus
    {| RedLightMonitor.violation_logged := true; RedLightMonitor.violations := ∅ |} veh
  = RedLightMonitor.init.
Proof.
  intros veh. split; [reflexivity|].
  destruct (stop_waypoint_precedence Sample.speed_along_x dot_past Qminus dot_past
              {| RedLightMonitor.violation_logged := true;
                 RedLightMonitor.violations := ∅ |}
              TrafficSignalScript.init veh (Sample.light Red) Sample.stop_line []
              eq_refl eq_refl eq_refl) as (_ & Hreset & _).
  apply Hreset. right. by vm_compute.
Defined.

(** ** Red lights: an input at which the claim fails *)

Section red_light_claims.
Import RedLightMonitor.

(** Claim C3 as stated fails for a stationary vehicle: standing 3 m
    past the stop line of a red light for 30 ticks (3 s at the loop's
    10 Hz), its speed is not above 1.0 m/s, so no tick counts it. *)
Lemma red_light_debounce_counterexample :
  let standing := Sample.past_line Red 0 in
  let s := ticks init (replicate 30 standing) in
  (get_speed_sq standing == 0)%Q ∧
  (0 < dot_past (get_location standing)
         (wp_location Sample.stop_line) (wp_forward Sample.stop_line))%Q ∧
  count (violations s) "StopWaypointPassed" = 0%Z ∧
  total_red s = 0%Z ∧
  violation_logged s = false.
Proof. by vm_compute. Qed.

End red_light_claims.

(** ** Team names *)

Section team_names.
Import Py Master TeamMonitor.

Lemma rstrip_with_cons (space : ascii → bool) (c : ascii) (r : string) :
  rstrip_with space (String c r) =
    match rstrip_with space r with
    | EmptyString => if space c then EmptyString else String c EmptyString
    | r' => String c r'
    end.
Proof. done. Qed.

Lemma lstrip_clean (s : string) : starts_clean s = true → lstrip_with isspace s = s.
Proof. destruct s as [|c r]; [done|]. simpl. by intros ->%negb_true_iff. Qed.

Lemma rstrip_clean (s : string) : ends_clean s = true → rstrip_with isspace s = s.
Proof.
  induction s as [|c r IH]; [done|]. rewrite rstrip_with_cons.
  destruct r as [|c' r'].
  - simpl. by intros ->%negb_true_iff.
  - intros H. by rewrite IH.
Qed.

Lemma starts_clean_lstrip (s : string) : starts_clean (lstrip_with isspace s) = true.
Proof.
  induction s as [|c r IH]; [done|]. simpl.
  destruct (isspace c) eqn:E; [done|]. simpl. by rewrite E.
Qed.

Lemma ends_clean_rstrip (s : string) : ends_clean (rstrip_with isspace s) = true.
Proof.
  induction s as [|c r IH]; [done|]. rewrite rstrip_with_cons.
  destruct (rstrip_with isspace r) as [|c' r'] eqn:E.
  - destruct (isspace c) eqn:Ec; [done|]. simpl. by rewrite Ec.
  - done.
Qed.

Lemma starts_clean_rstrip (s : string) :
  starts_clean s = true → starts_clean (rstrip_with isspace s) = true.
Proof.
  destruct s as [|c r]; [done|]. rewrite rstrip_with_cons. simpl.
  intros Hc. destruct (rstrip_with isspace r); [|done].
  apply negb_true_iff in Hc. by rewrite Hc; simpl; rewrite Hc.
Qed.

(** A character map that makes no whitespace keeps a string clean. *)
Lemma starts_clean_map (g : ascii → ascii) (s : string) :
  (∀ c, isspace c = false → isspace (g c) = false) →
  starts_clean s = true → starts_clean (map_string g s) = true.
Proof.
  intros Hg. destruct s as [|c r]; [done|]. simpl.
  intros Hc%negb_true_iff. by rewrite Hg.
Qed.

Lemma ends_clean_map (g : ascii → ascii) (s : string) :
  (∀ c, isspace c = false → isspace (g c) = false) →
  ends_clean s = true → ends_clean (map_string g s) = true.
Proof.
  intros Hg. induction s as [|c r IH]; [done|]. destruct r as [|c' r'].
  - simpl. intros Hc%negb_true_iff. by rewrite Hg.
  - intros H. apply IH in H. exact H.
Qed.

Lemma lower_map (s : string) : lower s = map_string lower_ascii s.
Proof. induction s; simpl; congruence. Qed.

Lemma lower_ascii_space (c : ascii) : isspace c = false → isspace (lower_ascii c) = false.
Proof. by destruct c as [[] [] [] [] [] [] [] []]. Qed.

Lemma replace_space_space (c : ascii) :
  isspace c = false → isspace (if Ascii.eqb c " " then "_"%char else c) = false.
Proof. by destruct c as [[] [] [] [] [] [] [] []]. Qed.

Lemma strip_main_team_name (input : string) :
  strip (main_team_name input) = main_team_name input.
Proof.
  unfold main_team_name, team_name, strip, strip_with.
  unfold replace_space. rewrite lower_map.
  assert (starts_clean (rstrip_with isspace (lstrip_with isspace input)) = true) as Hs
    by apply starts_clean_rstrip, starts_clean_lstrip.
  pose proof (ends_clean_rstrip (lstrip_with isspace input)) as He.
  rewrite lstrip_clean, rstrip_clean; [done| |].
  - by apply ends_clean_map, ends_clean_map;
      [apply replace_space_space | apply lower_ascii_space |].
  - by apply starts_clean_map, starts_clean_map;
      [apply replace_space_space | apply lower_ascii_space |].
Qed.

(** The key of a team typed at the prompt matches the record that
    carries that key. *)
Lemma team_finds_own_record (input : string) :
  name_matches (main_team_name input) (main_team_name input) = true.
Proof.
  unfold name_matches. rewrite strip_main_team_name. apply String.eqb_refl.
Qed.

End team_names.

(** ** The master leaderboard *)

Section master.
Import Py Master.

(** A record of the ten columns, cell by cell. *)
Lemma ten_cells (record : list string) :
  length record = 10%nat →
  ∃ c0 c1 c2 c3 c4 c5 c6 c7 c8 c9, record = [c0; c1; c2; c3; c4; c5; c6; c7; c8; c9].
Proof.
  intros H. do 10 (destruct record as [|? record]; [done|]).
  destruct record; [|done]. by do 10 eexists.
Qed.

Ltac ten_cells r H :=
  let c0 := fresh "c0" in let c1 := fresh "c1" in let c2 := fresh "c2" in
  let c3 := fresh "c3" in let c4 := fresh "c4" in let c5 := fresh "c5" in
  let c6 := fresh "c6" in let c7 := fresh "c7" in let c8 := fresh "c8" in
  let c9 := fresh "c9" in
  destruct (ten_cells r H) as (c0 & c1 & c2 & c3 & c4 & c5 & c6 & c7 & c8 & c9 & ->).

Lemma _dict_to_list_DictReader_row (record : list string) :
  length record = 10%nat →
  _dict_to_list (DictReader_row fieldnames record) = Ok record.
Proof. intros H. by ten_cells record H. Qed.

Lemma is_team_DictReader_row (record : list string) (team_name : string) :
  length record = 10%nat →
  is_team (DictReader_row fieldnames record) team_name
  = Ok (record_matches team_name record).
Proof. intros H. by ten_cells record H. Qed.

Lemma DictReader_rows_ten (records : list (list string)) :
  Forall (λ r, length r = 10%nat) records →
  DictReader_rows fieldnames records = map (DictReader_row fieldnames) records.
Proof.
  intros H. unfold DictReader_rows. f_equal.
  induction H as [|r records Hr _ IH]; [done|]. simpl.
  rewrite IH. by destruct r.
Qed.

Lemma read_rows_ten (records : list (list string)) :
  Forall (λ r, length r = 10%nat) records →
  read_rows (Some (fieldnames :: records)) = map (DictReader_row fieldnames) records.
Proof. intros H. unfold read_rows. by rewrite <- DictReader_rows_ten. Qed.

Lemma writerows_DictReader_rows (records : list (list string)) :
  Forall (λ r, length r = 10%nat) records →
  writerows (map (DictReader_row fieldnames) records) = (records, Ok tt).
Proof.
  induction 1 as [|r records Hr _ IH]; [done|]. simpl.
  by rewrite _dict_to_list_DictReader_row, IH.
Qed.

Lemma writerows_app (rows1 rows2 : list rowdict) (records1 : list (list string)) :
  writerows rows1 = (records1, Ok tt) →
  writerows (rows1 ++ rows2) =
    (records1 ++ (writerows rows2).1, (writerows rows2).2).
Proof.
  revert records1. induction rows1 as [|row rows1 IH]; intros records1; simpl.
  - intros [= <-]. by destruct (writerows rows2).
  - destruct (_dict_to_list row); [|done].
    destruct (writerows rows1) as [records r] eqn:E.
    intros [= <- ->]. by rewrite (IH records eq_refl).
Qed.

Lemma _dict_to_list_new_row (now team_name : string) (lane collision redlight : Z) :
  _dict_to_list (new_row now team_name lane collision redlight)
  = Ok (new_record now team_name lane collision redlight).
Proof. reflexivity. Qed.

(** The cells of a matched row after lines 47-57. *)
Lemma update_row_cells (record : list string) (now : string)
    (s2 s3 s4 s5 s6 s7 s8 : string) :
  length record = 10%nat →
  let row :=
    setitem "current_total" s8
    (setitem "lowest_redlight" s7
    (setitem "current_redlight" s6
    (setitem "lowest_collision" s5
    (setitem "current_collision" s4
    (setitem "lowest_lane" s3
    (setitem "current_lane" s2
    (setitem "date/time" now (DictReader_row fieldnames record)))))))) in
  getitem row "lowest_total" = Ok (record !! 9%nat) ∧
  ∀ s9, _dict_to_list (setitem "lowest_total" s9 row)
        = Ok (take 1 record ++ [now; s2; s3; s4; s5; s6; s7; s8; s9]).
Proof. intros H. by ten_cells record H. Qed.

Lemma update_row_DictReader_row
    (now name date cl ll cc lc cr lr ct lt : string)
    (lane collision redlight a b c d : Z) :
  int ll = Some a → int lc = Some b → int lr = Some c → int lt = Some d →
  ∃ row',
    update_row now lane collision redlight
      (DictReader_row fieldnames [name; date; cl; ll; cc; lc; cr; lr; ct; lt]) = Ok row' ∧
    _dict_to_list row' =
      Ok [ name; now; str lane; str (Z.min a lane);
           str collision; str (Z.min b collision);
           str redlight; str (Z.min c redlight);
           str (lane + collision + redlight);
           str (Z.min d (lane + collision + redlight)) ].
Proof.
  intros Ha Hb Hc Hd. unfold update_row.
  set (record := [name; date; cl; ll; cc; lc; cr; lr; ct; lt]).
  change (getitem (DictReader_row fieldnames record) "lowest_lane")
    with (@Ok (option string) (Some ll)).
  change (getitem (DictReader_row fieldnames record) "lowest_collision")
    with (@Ok (option string) (Some lc)).
  change (getitem (DictReader_row fieldnames record) "lowest_redlight")
    with (@Ok (option string) (Some lr)).
  cbn [mbind result_bind bind int_of]. rewrite Ha, Hb, Hc.
  cbn [mbind result_bind bind int_of].
  edestruct (update_row_cells record now) as [-> Hcells]; [done|].
  cbn [mbind result_bind bind int_of lookup list_lookup record]. rewrite Hd.
  eexists. split; [done|]. by rewrite Hcells.
Qed.

Lemma update_first_no_match (now team_name : string) (lane collision redlight : Z)
    (records : list (list string)) :
  Forall (λ r, length r = 10%nat) records →
  Forall (λ r, record_matches team_name r = false) records →
  update_first now team_name lane collision redlight
    (map (DictReader_row fieldnames) records) = Ok None.
Proof.
  intros Hten Hno. induction Hten as [|r records Hr _ IH]; [done|].
  apply Forall_cons in Hno as [Hno1 Hno]. simpl.
  rewrite is_team_DictReader_row, Hno1 by done. simpl.
  by rewrite IH.
Qed.

Lemma update_first_match (now team_name : string) (lane collision redlight : Z)
    (before after : list (list string)) (record : list string) :
  Forall (λ r, length r = 10%nat) before →
  Forall (λ r, record_matches team_name r = false) before →
  length record = 10%nat →
  record_matches team_name record = true →
  update_first now team_name lane collision redlight
    (map (DictReader_row fieldnames) (before ++ record :: after))
  = (row' ← update_row now lane collision redlight (DictReader_row fieldnames record);
     Ok (Some (map (DictReader_row fieldnames) before
               ++ row' :: map (DictReader_row fieldnames) after))).
Proof.
  intros Hten Hno Hrecord Hmatch.
  induction Hten as [|r before Hr _ IH]; simpl.
  - by rewrite is_team_DictReader_row, Hmatch.
  - apply Forall_cons in Hno as [Hno1 Hno].
    rewrite is_team_DictReader_row, Hno1 by done. simpl.
    rewrite IH by done.
    by destruct (update_row now lane collision redlight (DictReader_row fieldnames record)).
Qed.

Lemma update_master_csv_absent (now team_name : string) (lane collision redlight : Z) :
  update_master_csv None now team_name lane collision redlight
  = (Some [fieldnames; new_record now team_name lane collision redlight], Ok tt).
Proof. reflexivity. Qed.

Lemma update_master_csv_new_team (now team_name : string) (lane collision redlight : Z)
    (records : list (list string)) :
  Forall (λ r, length r = 10%nat) records →
  Forall (λ r, record_matches team_name r = false) records →
  update_master_csv (Some (fieldnames :: records)) now team_name lane collision redlight
  = (Some (fieldnames :: records ++ [new_record now team_name lane collision redlight]),
     Ok tt).
Proof.
  intros Hten Hno. unfold update_master_csv, merge_rows.
  rewrite read_rows_ten, update_first_no_match by done. simpl.
  rewrite (writerows_app _ _ records) by (by apply writerows_DictReader_rows).
  simpl. by rewrite _dict_to_list_new_row.
Qed.

Lemma update_master_csv_known_team
    (now team_name : string) (lane collision redlight : Z)
    (before after : list (list string))
    (name date cl ll cc lc cr lr ct lt : string) (a b c d : Z) :
  Forall (λ r, length r = 10%nat) (before ++ after) →
  Forall (λ r, record_matches team_name r = false) before →
  name_matches name team_name = true →
  int ll = Some a → int lc = Some b → int lr = Some c → int lt = Some d →
  update_master_csv
    (Some (fieldnames :: before ++ [name; date; cl; ll; cc; lc; cr; lr; ct; lt] :: after))
    now team_name lane collision redlight
  = (Some (fieldnames :: before ++
             [ name; now; str lane; str (Z.min a lane);
               str collision; str (Z.min b collision);
               str redlight; str (Z.min c redlight);
               str (lane + collision + redlight);
               str (Z.min d (lane + collision + redlight)) ] :: after),
     Ok tt).
Proof.
  intros [Hbefore Hafter]%Forall_app Hno Hmatch Ha Hb Hc Hd.
  destruct (update_row_DictReader_row now name date cl ll cc lc cr lr ct lt
              lane collision redlight a b c d Ha Hb Hc Hd) as (row' & Hrow & Hcells).
  unfold update_master_csv, merge_rows.
  rewrite read_rows_ten.
  2:{ apply Forall_app. split; [done|]. by apply Forall_cons. }
  rewrite update_first_match, Hrow by done. simpl.
  rewrite (writerows_app _ _ before) by (by apply writerows_DictReader_rows).
  simpl. rewrite Hcells, writerows_DictReader_rows by done. done.
Qed.

(** Two merges for one key that matches its own record: the second
    updates the record the first created. *)
Lemma update_master_csv_twice (key now1 now2 : string)
    (lane1 collision1 redlight1 lane2 collision2 redlight2 : Z) :
  name_matches key key = true →
  updates None
    [ {| call_now := now1; call_team := key;
         call_lane := lane1; call_collision := collision1; call_redlight := redlight1 |};
      {| call_now := now2; call_team := key;
         call_lane := lane2; call_collision := collision2; call_redlight := redlight2 |} ]
  = Some [ fieldnames;
           [ key; now2; str lane2; str (Z.min lane1 lane2);
             str collision2; str (Z.min collision1 collision2);
             str redlight2; str (Z.min redlight1 redlight2);
             str (lane2 + collision2 + redlight2);
             str (Z.min (lane1 + collision1 + redlight1)
                        (lane2 + collision2 + redlight2)) ] ].
Proof.
  intros Hkey. unfold updates, update. cbn [fold_left call_now call_team
    call_lane call_collision call_redlight].
  rewrite update_master_csv_absent. unfold new_record. cbn [fst].
  pose proof (update_master_csv_known_team now2 key lane2 collision2 redlight2
                [] [] key now1 (str lane1) (str lane1)
                (str collision1) (str collision1) (str redlight1) (str redlight1)
                (str (lane1 + collision1 + redlight1))
                (str (lane1 + collision1 + redlight1))
                lane1 collision1 redlight1 (lane1 + collision1 + redlight1)) as H.
  cbn [app] in H. by rewrite H by (done || apply int_str).
Qed.




(** *** Records kept by a merge *)

(** The records split at the first one of the team, if any. *)
Lemma first_match (team_name : string) (records : list (list string)) :
  Forall (λ r, record_matches team_name r = false) records ∨
  ∃ before record after,
    records = before ++ record :: after ∧
    Forall (λ r, record_matches team_name r = false) before ∧
    record_matches team_name record = true.
Proof.
  induction records as [|r records IH]; [by left|].
  destruct (record_matches team_name r) eqn:Hr.
  - right. by exists [], r, records.
  - destruct IH as [IH | (before & record & after & -> & Hno & Hmatch)].
    + left. by constructor.
    + right. exists (r :: before), record, after. split; [done|].
      split; [by constructor|done].
Qed.

(** A matched row that [update_row] accepts is written back with its
    team name and nine fresh cells. *)
Lemma update_row_written (now : string) (lane collision redlight : Z)
    (record : list string) (row' : rowdict) :
  length record = 10%nat →
  update_row now lane collision redlight (DictReader_row fieldnames record) = Ok row' →
  ∃ cells, _dict_to_list row' = Ok (take 1 record ++ cells).
Proof.
  intros Hten. unfold update_row. ten_cells record Hten.
  change (getitem (DictReader_row fieldnames ?r) "lowest_lane")
    with (@Ok (option string) (Some c3)).
  change (getitem (DictReader_row fieldnames ?r) "lowest_collision")
    with (@Ok (option string) (Some c5)).
  change (getitem (DictReader_row fieldnames ?r) "lowest_redlight")
    with (@Ok (option string) (Some c7)).
  cbn [mbind result_bind bind int_of].
  destruct (int c3) as [a|]; [|done]. destruct (int c5) as [b|]; [|done].
  destruct (int c7) as [c|]; [|done]. cbn [mbind result_bind bind].
  destruct (update_row_cells [c0; c1; c2; c3; c4; c5; c6; c7; c8; c9] now
              (str lane) (str (Z.min a lane))
              (str collision) (str (Z.min b collision))
              (str redlight) (str (Z.min c redlight))
              (str (lane + collision + redlight)) eq_refl) as [Hget Hcells].
  rewrite Hget. cbn [mbind result_bind bind int_of lookup list_lookup].
  destruct (int c9); [|done]. cbn [mbind result_bind bind].
  intros [= <-]. eexists. apply Hcells.
Qed.

Lemma update_master_csv_preserves (records : list (list string))
    (now team_name : string) (lane collision redlight : Z) :
  Forall (λ r, length r = 10%nat) records →
  match update_master_csv (Some (fieldnames :: records))
          now team_name lane collision redlight with
  | (f', Ok _) =>
      ∃ records',
        f' = Some (fieldnames :: records') ∧
        (length records ≤ length records')%nat ∧
        ∀ i record, records !! i = Some record →
          record_matches team_name record = false →
          records' !! i = Some record
  | (f', Raise _) => f' = Some (fieldnames :: records)
  end.
Proof.
  intros Hten.
  destruct (first_match team_name records)
    as [Hno | (before & record & after & -> & Hno & Hmatch)].
  - rewrite update_master_csv_new_team by done.
    eexists. split; [done|]. split; [rewrite length_app; lia|].
    intros i record Hi _. by apply lookup_app_l_Some.
  - pose proof Hten as Hten'.
    apply Forall_app in Hten' as [Hbefore [Hrecord Hafter]%Forall_cons].
    unfold update_master_csv, merge_rows.
    rewrite read_rows_ten, update_first_match by done.
    destruct (update_row now lane collision redlight
                (DictReader_row fieldnames record)) as [row'|e] eqn:Hrow; [|done].
    destruct (update_row_written _ _ _ _ _ _ Hrecord Hrow) as (cells & Hcells).
    simpl.
    rewrite (writerows_app _ _ before) by (by apply writerows_DictReader_rows).
    simpl. rewrite Hcells, writerows_DictReader_rows by done. simpl.
    eexists. split; [done|]. split; [rewrite !length_app; simpl; lia|].
    intros i r Hi Hr. apply lookup_app_Some in Hi as [Hi | [Hlen Hi]].
    + by apply lookup_app_l_Some.
    + apply lookup_app_Some. right. split; [done|].
      destruct (i - length before)%nat; simpl in *; [|done].
      injection Hi as ->. congruence.
Qed.

(** *** Entries that satisfy the invariant *)

Lemma entry_of_cells (record : list string) (e : entry) :
  entry_of record = Some e →
  ∃ name date cl ll cc lc cr lr ct lt,
    record = [name; date; cl; ll; cc; lc; cr; lr; ct; lt] ∧
    int cl = Some (current_lane e) ∧ int ll = Some (lowest_lane e) ∧
    int cc = Some (current_collision e) ∧ int lc = Some (lowest_collision e) ∧
    int cr = Some (current_redlight e) ∧ int lr = Some (lowest_redlight e) ∧
    int ct = Some (current_total e) ∧ int lt = Some (lowest_total e).
Proof.
  intros H. do 10 (destruct record as [|? record]; [done|]).
  destruct record; [|done]. simpl in H.
  repeat match type of H with
         | context [int ?s] => destruct (int s) eqn:?; simpl in H; [|done]
         end.
  injection H as <-. simpl. by do 10 eexists.
Qed.

Lemma good_record_length (record : list string) :
  good_record record → length record = 10%nat.
Proof.
  intros (e & He & _). apply entry_of_cells in He.
  by destruct He as (? & ? & ? & ? & ? & ? & ? & ? & ? & ? & -> & _).
Qed.

Lemma lowest_not_raised_refl (record : list string) :
  good_record record → lowest_not_raised record record.
Proof. intros (e & He & _). exists e, e. unfold lowest_le. by repeat split. Qed.

Lemma good_new_record (now team_name : string) (lane collision redlight : Z) :
  good_record (new_record now team_name lane collision redlight).
Proof.
  eexists. unfold new_record, entry_of. rewrite !int_str. simpl.
  split; [done|]. unfold lowest_le_current. simpl. lia.
Qed.

(** One merge keeps the invariant, never raises on entries that
    satisfy it, and leaves every record in place with its lowest
    fields no higher than before. *)
Lemma update_master_csv_good (records : list (list string))
    (now team_name : string) (lane collision redlight : Z) :
  Forall good_record records →
  ∃ records',
    update_master_csv (Some (fieldnames :: records)) now team_name lane collision redlight
      = (Some (fieldnames :: records'), Ok tt) ∧
    Forall good_record records' ∧
    Forall2 lowest_not_raised records (take (length records) records').
Proof.
  intros Hgood.
  assert (Forall (λ r, length r = 10%nat) records) as Hten.
  { eapply Forall_impl; [exact Hgood|]. apply good_record_length. }
  destruct (first_match team_name records)
    as [Hno | (before & record & after & -> & Hno & Hmatch)].
  - eexists. split; [by apply update_master_csv_new_team|]. split.
    + apply Forall_app. split; [done|]. repeat constructor. apply good_new_record.
    + rewrite take_app_length. apply Forall_Forall2_diag.
      eapply Forall_impl; [exact Hgood|]. apply lowest_not_raised_refl.
  - apply Forall_app in Hgood as [Hbefore Hgood].
    apply Forall_cons in Hgood as [(e & He & Hle) Hafter].
    pose proof He as Hcells. apply entry_of_cells in Hcells
      as (name & date & cl & ll & cc & lc & cr & lr & ct & lt & -> &
          Hcl & Hll & Hcc & Hlc & Hcr & Hlr & Hct & Hlt).
    assert (Forall (λ r, length r = 10%nat) (before ++ after)) as Hten'.
    { apply Forall_app in Hten as [? [_ ?]%Forall_cons]. by apply Forall_app. }
    eexists. split.
    { by apply (update_master_csv_known_team _ _ _ _ _ _ _ _ _ _ _ _ _ _ _ _ _
                  (lowest_lane e) (lowest_collision e) (lowest_redlight e)
                  (lowest_total e)). }
    assert (entry_of
              [ name; now; str lane; str (Z.min (lowest_lane e) lane);
                str collision; str (Z.min (lowest_collision e) collision);
                str redlight; str (Z.min (lowest_redlight e) redlight);
                str (lane + collision + redlight);
                str (Z.min (lowest_total e) (lane + collision + redlight)) ]
            = Some {| current_lane := lane;
                      lowest_lane := Z.min (lowest_lane e) lane;
                      current_collision := collision;
                      lowest_collision := Z.min (lowest_collision e) collision;
                      current_redlight := redlight;
                      lowest_redlight := Z.min (lowest_redlight e) redlight;
                      current_total := lane + collision + redlight;
                      lowest_total :=
                        Z.min (lowest_total e) (lane + collision + redlight) |})
      as He'.
    { unfold entry_of. by rewrite !int_str. }
    split.
    + apply Forall_app. split; [done|]. apply Forall_cons. split; [|done].
      eexists. split; [exact He'|]. unfold lowest_le_current. simpl. lia.
    + rewrite take_ge by (rewrite !length_app; simpl; lia).
      apply Forall2_app.
      * apply Forall_Forall2_diag.
        eapply Forall_impl; [exact Hbefore|]. apply lowest_not_raised_refl.
      * constructor.
        -- eexists _, _. split; [exact He|]. split; [exact He'|].
           unfold lowest_le. simpl. lia.
        -- apply Forall_Forall2_diag.
           eapply Forall_impl; [exact Hafter|]. apply lowest_not_raised_refl.
Qed.

Lemma update_good_store (f : store) (c : call) :
  good_store f → good_store (update f c).
Proof.
  intros [-> | (records & -> & Hgood)]; right; unfold update.
  - rewrite update_master_csv_absent. simpl. eexists. split; [done|].
    repeat constructor. apply good_new_record.
  - destruct (update_master_csv_good records (call_now c) (call_team c)
                (call_lane c) (call_collision c) (call_redlight c) Hgood)
      as (records' & -> & Hgood' & _).
    by exists records'.
Qed.

Lemma updates_good_store (calls : list call) (f : store) :
  good_store f → good_store (updates f calls).
Proof.
  revert f. induction calls as [|c calls IH]; intros f Hf; [done|].
  apply IH. by apply update_good_store.
Qed.

(** Claim C2.  Start from no leaderboard file and run any finite
    sequence of merges, then one more.  That merge returns normally;
    afterwards every record of the file reads as an entry with
    [lowest <= current] in the four categories (lane, collision,
    redlight, total); and every record that was in the file before the
    merge is still at its place, with each of its four lowest fields
    at most what it was. *)
Theorem leaderboard_monotonicity (calls : list call) (c : call) :
  let f := updates None calls in
  let r := update_master_csv f (call_now c) (call_team c)
             (call_lane c) (call_collision c) (call_redlight c) in
  r.2 = Ok tt ∧
  (∀ record, record ∈ records_of r.1 →
     ∃ e, entry_of record = Some e ∧ lowest_le_current e) ∧
  (∀ i record, records_of f !! i = Some record →
     ∃ record' e e',
       records_of r.1 !! i = Some record' ∧
       entry_of record = Some e ∧ entry_of record' = Some e' ∧
       lowest_le e' e).
Proof.
  intros f r.
  destruct (updates_good_store calls None) as [Hf | (records & Hf & Hgood)];
    [by left| |]; fold f in Hf; unfold r; rewrite Hf.
  - rewrite update_master_csv_absent. simpl. split; [done|]. split; [|done].
    intros record ->%list_elem_of_singleton. apply good_new_record.
  - destruct (update_master_csv_good records (call_now c) (call_team c)
                (call_lane c) (call_collision c) (call_redlight c) Hgood)
      as (records' & -> & Hgood' & Hle).
    simpl. split; [done|]. split.
    + intros record Hin. by eapply Forall_forall in Hgood'.
    + intros i record Hi.
      destruct (Forall2_lookup_l _ _ _ _ _ Hle Hi) as (record' & Hi' & Hrel).
      apply lookup_take_Some in Hi' as [Hi' _].
      destruct Hrel as (e & e' & ? & ? & ?). by exists record', e, e'.
Qed.

Lemma leaderboard_monotonicity_witness :
  let first :=
    {| call_now := "2025-01-01 11:00:00"; call_team := "Alpha";
       call_lane := 3; call_collision := 1; call_redlight := 0 |} in
  let second :=
    {| call_now := "2025-01-02 09:30:00"; call_team := "Alpha";
       call_lane := 1; call_collision := 2; call_redlight := 1 |} in
  ∃ record' e e',
    records_of (updates None [first; second]) !! 0%nat = Some record' ∧
    entry_of ["Alpha"; "2025-01-01 11:00:00"; "3"; "3"; "1"; "1"; "0"; "0"; "4"; "4"]
      = Some e ∧
    entry_of record' = Some e' ∧
    lowest_le e' e.
Proof.
  intros first second.
  destruct (leaderboard_monotonicity [first] second) as (_ & _ & Hle).
  exact (Hle 0%nat _ eq_refl).
Defined.




End master.

(** * Runs of the monitors

    What the monitors keep true over whole runs: any sequence of sensor
    events and loop turns. *)

(** ** Collision runs *)

Section collision_runs.
Import CollisionMonitor.

Lemma in_zone_same (p : Vector3D) : in_zone p p = true.
Proof.
  apply in_zone_lt. unfold euclidean_distance_sq, sq, ZONE_RADIUS.
  assert ((x p - x p) * (x p - x p) + (y p - y p) * (y p - y p) == 0)%Q as -> by ring.
  reflexivity.
Qed.

Lemma filter_filter_same {A} (p : A → bool) (l : list A) :
  List.filter p (List.filter p l) = List.filter p l.
Proof.
  induction l as [|a l IH]; [done|]. simpl.
  destruct (p a) eqn:E; simpl; by rewrite ?E, ?IH.
Qed.

Lemma _cleanup_zones_twice (self : t) (loc : Vector3D) :
  _cleanup_zones (_cleanup_zones self loc) loc = _cleanup_zones self loc.
Proof. unfold _cleanup_zones. simpl. by rewrite filter_filter_same. Qed.

(** Property X1.  A collision event delivered again while the vehicle
    has not moved changes nothing, whatever the monitor held before and
    whatever the two other actors are: the second event is absorbed by
    the zone the first one left or fell into, no counter moves and the
    zone list stays as the first event left it. *)
Theorem _on_collision_repeated (self : t) (loc : Vector3D) (type_id type_id' : string) :
  _on_collision (_on_collision self loc type_id) loc type_id'
  = _on_collision self loc type_id.
Proof.
  destruct (existsb (in_zone loc) (zones self)) eqn:E.
  - rewrite (_on_collision_absorbed self) by done.
    rewrite _on_collision_absorbed.
    + apply _cleanup_zones_twice.
    + simpl. by rewrite existsb_filter_same.
  - destruct (_on_collision_counted self loc type_id E) as [Hz _].
    rewrite _on_collision_absorbed.
    + destruct (_on_collision self loc type_id) as [zs st dy]. simpl in Hz. subst zs.
      unfold _cleanup_zones. simpl. by rewrite in_zone_same.
    + rewrite Hz. simpl. by rewrite in_zone_same.
Qed.

Lemma run_step_counts (self : t) (s : step) :
  let self' := run_step self s in
  (static_count self ≤ static_count self')%Z ∧
  (dynamic_count self ≤ dynamic_count self')%Z ∧
  (total_collisions self' ≤ total_collisions self + (if is_collision s then 1 else 0))%Z.
Proof.
  destruct s as [loc type_id|loc]; simpl.
  - destruct (existsb (in_zone loc) (zones self)) eqn:E.
    + rewrite _on_collision_absorbed by done. unfold total_collisions. simpl. lia.
    + pose proof (_on_collision_counted self loc type_id E) as [_ H].
      unfold total_collisions.
      destruct (Py.contains "vehicle" type_id); destruct H as [-> ->]; lia.
  - unfold total_collisions. simpl. lia.
Qed.

(** Property X3.  Over any run the two collision counters never go
    down, and the total grows by at most the number of collision events
    of the run: a loop turn never counts, and no event counts twice. *)
Theorem run_counts_bounded (self : t) (steps : list step) :
  let self' := run_from self steps in
  (static_count self ≤ static_count self')%Z ∧
  (dynamic_count self ≤ dynamic_count self')%Z ∧
  (total_collisions self'
   ≤ total_collisions self + Z.of_nat (length (List.filter is_collision steps)))%Z.
Proof.
  revert self. induction steps as [|s steps IH]; intros self; simpl.
  - lia.
  - specialize (IH (run_step self s)). simpl in IH.
    pose proof (run_step_counts self s) as H. simpl in H.
    unfold run_from in *. simpl.
    destruct (is_collision s); simpl length; lia.
Qed.

End collision_runs.

Section computed_collision_runs.
Import CollisionMonitor FloatCollisionMonitor.
Variable euclidean_distance : Vector3D → Vector3D → Q.

Lemma computed_run_step_single_zone (self : t) (zone : Vector3D) (s : step) :
  zones self = [zone] →
  in_zone euclidean_distance (step_loc s) zone = true →
  run_step euclidean_distance self s = self.
Proof.
  intros Hz Hin. destruct self as [zs st dy]. simpl in Hz. subst zs.
  destruct s as [loc type_id|loc]; simpl in *.
  - rewrite computed_on_collision_absorbed by (simpl; by rewrite Hin).
    unfold _cleanup_zones. simpl. by rewrite Hin.
  - unfold _cleanup_zones. simpl. by rewrite Hin.
Qed.

(** Property X2.  A burst of contacts is one incident.  After a
    collision that is counted at [loc], any number of further collision
    events and loop turns, in any order and with any other actors, at
    locations whose distance to [loc], as the code computes it, is below
    [ZONE_RADIUS], leave the monitor exactly as the first event left it:
    the total has gone up by one and the only zone is [loc]. *)
Theorem burst_counted_once (self : t) (loc : Vector3D) (type_id : string)
    (steps : list step) :
  existsb (in_zone euclidean_distance loc) (zones self) = false →
  Forall (λ s, (euclidean_distance (step_loc s) loc < ZONE_RADIUS)%Q) steps →
  let self' := run_from euclidean_distance self (Collision loc type_id :: steps) in
  self' = _on_collision euclidean_distance self loc type_id ∧
  zones self' = [loc] ∧
  total_collisions self' = (total_collisions self + 1)%Z.
Proof.
  intros Hfree Hnear. cbv zeta.
  destruct (computed_on_collision_counted euclidean_distance self loc type_id Hfree)
    as [Hz _].
  assert (run_from euclidean_distance self (Collision loc type_id :: steps)
          = _on_collision euclidean_distance self loc type_id) as ->.
  { unfold run_from. simpl.
    revert Hz. generalize (_on_collision euclidean_distance self loc type_id).
    intros s1 Hz.
    induction Hnear as [|s steps Hs _ IH]; [done|].
    simpl. rewrite (computed_run_step_single_zone s1 loc)
      by (done || by apply computed_in_zone_lt).
    done. }
  split; [done|]. split; [done|]. by apply computed_total_collisions_counted.
Qed.

(** Property X4.  Right after any collision event of a run that starts
    with a fresh monitor, counted or not, the monitor holds exactly one
    zone: the vehicle's location when the event was counted, and
    otherwise a zone that the code finds less than [ZONE_RADIUS] from
    the vehicle. *)
Theorem zone_after_collision (steps : list step) (loc : Vector3D) (type_id : string) :
  ∃ zone,
    zones (run euclidean_distance (steps ++ [Collision loc type_id])) = [zone] ∧
    (zone = loc ∨ (euclidean_distance loc zone < ZONE_RADIUS)%Q).
Proof.
  unfold run, run_from. rewrite fold_left_app. simpl.
  pose proof (computed_run_zones euclidean_distance steps) as Hlen.
  unfold run, run_from in Hlen.
  revert Hlen. generalize (fold_left (run_step euclidean_distance) steps init).
  intros self Hlen.
  destruct (existsb (in_zone euclidean_distance loc) (zones self)) eqn:E.
  - rewrite computed_on_collision_absorbed by done. simpl.
    destruct (zones self) as [|zone [|]]; simpl in *; [done| |lia].
    rewrite orb_false_r in E. rewrite E. exists zone. split; [done|].
    right. by apply computed_in_zone_lt.
  - destruct (computed_on_collision_counted euclidean_distance self loc type_id E)
      as [-> _].
    exists loc. split; [done|]. by left.
Qed.

End computed_collision_runs.

Lemma burst_counted_once_witness :
  let steps :=
    [ CollisionMonitor.Collision {| x := 1; y := 0; z := 0 |} "vehicle.audi.tt";
      CollisionMonitor.LoopTick {| x := 1.5; y := 0; z := 0 |} ] in
  let origin := {| x := 0; y := 0; z := 0 |} in
  let first := CollisionMonitor.Collision origin "static.prop.barrel" in
  let self' := FloatCollisionMonitor.run_from Sample.along_x CollisionMonitor.init
                 (first :: steps) in
  self' = FloatCollisionMonitor._on_collision Sample.along_x CollisionMonitor.init origin
            "static.prop.barrel" ∧
  CollisionMonitor.zones self' = [origin] ∧
  CollisionMonitor.total_collisions self'
  = (CollisionMonitor.total_collisions CollisionMonitor.init + 1)%Z.
Proof.
  apply (burst_counted_once Sample.along_x CollisionMonitor.init
           {| x := 0; y := 0; z := 0 |} "static.prop.barrel"
           [ CollisionMonitor.Collision {| x := 1; y := 0; z := 0 |} "vehicle.audi.tt";
             CollisionMonitor.LoopTick {| x := 1.5; y := 0; z := 0 |} ]).
  - reflexivity.
  - repeat constructor.
Defined.

(** ** Runs of the stand-alone collision logger *)

Section logger_runs.
Import SeparateCollision.
Variable euclidean_distance : Vector3D → Vector3D → Q.
Variable zone_radius : Q.

Lemma Forall_List_filter {A} (P : A → Prop) (p : A → bool) (l : list A) :
  Forall P l → Forall P (List.filter p l).
Proof.
  induction 1 as [|a l Ha _ IH]; simpl; [done|].
  destruct (p a); [by constructor|done].
Qed.

Lemma separated_filter (p : Vector3D → bool) (zones : list Vector3D) :
  separated euclidean_distance zone_radius zones →
  separated euclidean_distance zone_radius (List.filter p zones).
Proof.
  induction zones as [|zone zones IH]; [done|]. simpl. intros [Hzone Hrest].
  destruct (p zone); simpl; [|by apply IH].
  split; [|by apply IH]. by apply Forall_List_filter.
Qed.

Lemma separated_snoc (zones : list Vector3D) (loc : Vector3D) :
  separated euclidean_distance zone_radius zones →
  Forall (λ zone, (zone_radius <= euclidean_distance loc zone)%Q) zones →
  separated euclidean_distance zone_radius (zones ++ [loc]).
Proof.
  induction zones as [|zone zones IH]; simpl.
  - by split.
  - intros [Hzone Hrest] [Hloc Hlocs]%Forall_cons. split; [|by apply IH].
    apply Forall_app. split; [done|]. by apply Forall_cons.
Qed.

Lemma is_in_existing_zone_false (self : t) (loc : Vector3D) :
  is_in_existing_zone euclidean_distance zone_radius self loc = false →
  Forall (λ zone, (zone_radius <= euclidean_distance loc zone)%Q)
    (collision_zones self).
Proof.
  unfold is_in_existing_zone.
  induction (collision_zones self) as [|zone zones IH]; simpl; [done|].
  intros [Hzone Hzones]%orb_false_elim. constructor; [|by apply IH].
  by apply Qltb_ge.
Qed.

Lemma run_step_consistent (self : t) (s : step) :
  consistent euclidean_distance zone_radius self →
  consistent euclidean_distance zone_radius
    (run_step euclidean_distance zone_radius self s).
Proof.
  intros (Hcount & Hlen & Hsep & Hrows). destruct s as [loc type_id|loc]; simpl.
  - unfold on_collision.
    destruct (is_in_existing_zone euclidean_distance zone_radius self loc) eqn:E; [done|].
    split_and!; simpl.
    + rewrite length_app. simpl. lia.
    + rewrite !length_app. simpl. lia.
    + apply separated_snoc; [done|]. by apply is_in_existing_zone_false.
    + apply Forall_app. split; [done|]. by apply Forall_singleton.
  - split_and!; simpl; try done.
    + etrans; [apply List.filter_length_le|done].
    + by apply separated_filter.
Qed.

(** Property X5.  Whatever the radius (negative or zero included),
    however the distances are rounded, and whatever the collision
    events and loop turns of a run of the stand-alone logger: the
    counter written to the [TOTAL_COLLISIONS] row is the number of
    detail rows written; there are never more zones than rows; for
    every zone, the distance the code computes from it to each zone
    recorded before it is the radius or more; and every row carries the
    object type computed from its object name ("running" for a vehicle
    or a walker, "static" otherwise). *)
Theorem logger_rows_and_zones (steps : list step) :
  let self := run euclidean_distance zone_radius steps in
  collision_count self = Z.of_nat (length (csv_rows self)) ∧
  (length (collision_zones self) ≤ length (csv_rows self))%nat ∧
  separated euclidean_distance zone_radius (collision_zones self) ∧
  Forall (λ row, row.1 = obj_type row.2) (csv_rows self).
Proof.
  unfold run.
  assert (consistent euclidean_distance zone_radius init) as Hinit by (by split_and!).
  revert Hinit. generalize init.
  induction steps as [|s steps IH]; intros self Hinv; [done|].
  simpl. apply IH. by apply run_step_consistent.
Qed.

End logger_runs.

(** ** Red-light runs *)

Section red_light_runs.
Import RedLightMonitor.

Lemma red_violation_type (veh : Vehicle) (tl : TrafficLight) (ty : string) :
  red_violation veh tl = Some ty → ty = "StopWaypointPassed" ∨ ty = "TriggerVolume".
Proof.
  unfold red_violation. destruct (get_stop_data tl) as [[stop_loc stop_fwd]|].
  - destruct (_ && _); [|done]. intros [= <-]. by left.
  - destruct (_ && _); [|done]. intros [= <-]. by right.
Qed.

Lemma tick_cases (self : t) (veh : Vehicle) :
  violations (tick self veh) = violations self ∨
  (violation_logged self = false ∧ violation_logged (tick self veh) = true ∧
   total_red (tick self veh) = (total_red self + 1)%Z).
Proof.
  unfold tick. destruct (get_traffic_light veh) as [tl|]; [|by left].
  case_bool_decide; [by left|].
  destruct (red_violation veh tl) as [ty|] eqn:Hty; [|by left].
  destruct (violation_logged self); [by left|]. right. simpl.
  split_and!; [done..|]. unfold total_red. simpl.
  destruct (red_violation_type _ _ _ Hty) as [-> | ->];
    rewrite count_incr_eq, count_incr_ne by done; lia.
Qed.

(** Property X8.  A tick that counts a violation sets the flag, and a
    tick that finds the flag set never counts, so two consecutive ticks
    never both count: over [n] ticks the red-light total never goes
    down and grows by at most [(n + 1) / 2] from an idle monitor, by at
    most [n / 2] from one whose flag is set. *)
Theorem red_light_rate (self : t) (vehs : list Vehicle) :
  (total_red self ≤ total_red (ticks self vehs)
   ≤ total_red self
     + (Z.of_nat (length vehs) + (if violation_logged self then 0 else 1)) / 2)%Z.
Proof.
  revert self. induction vehs as [|veh vehs IH]; intros self.
  - unfold ticks. simpl fold_left.
    assert (0 ≤ (Z.of_nat (length (@nil Vehicle))
                 + (if violation_logged self then 0 else 1)) / 2)%Z; [|lia].
    apply Z.div_pos; [|lia]. destruct (violation_logged self); simpl; lia.
  - specialize (IH (tick self veh)). unfold ticks in *. simpl fold_left.
    rewrite length_cons, Nat2Z.inj_succ.
    destruct (tick_cases self veh) as [Hsame|(Hidle & Hlogged & Htotal)].
    + assert (total_red (tick self veh) = total_red self) as Heq
        by (unfold total_red; by rewrite Hsame).
      rewrite Heq in IH.
      assert ((Z.of_nat (length vehs)
               + (if violation_logged (tick self veh) then 0 else 1)) / 2
              ≤ (Z.succ (Z.of_nat (length vehs))
                 + (if violation_logged self then 0 else 1)) / 2)%Z.
      { apply Z.div_le_mono; [lia|].
        destruct (violation_logged (tick self veh)), (violation_logged self); lia. }
      lia.
    + rewrite Hidle. rewrite Hlogged, Htotal in IH.
      assert ((Z.succ (Z.of_nat (length vehs)) + 1) / 2
              = 1 + (Z.of_nat (length vehs) + 0) / 2)%Z.
      { replace (Z.succ (Z.of_nat (length vehs)) + 1)%Z
          with ((Z.of_nat (length vehs) + 0) + 1 * 2)%Z by lia.
        rewrite Z.div_add by done. lia. }
      lia.
Qed.

End red_light_runs.

Section computed_red_light_runs.
Import RedLightMonitor FloatRedLightMonitor.
Variable get_speed : Vector3D → Q.
Variable dot : Vector3D → Vector3D → Vector3D → Q.
Variable sub : Q → Q → Q.

Lemma computed_tick_trigger_volume (self : t) (veh : Vehicle) :
  in_trigger_volume_moving get_speed sub veh →
  tick get_speed dot sub self veh =
    if violation_logged self then self
    else {| violation_logged := true;
            violations := incr "TriggerVolume" (violations self) |}.
Proof.
  intros (tl & Htl & Hred & Hwp & Hx%Qle_bool_iff & Hy%Qle_bool_iff & Hz%Qle_bool_iff
          & Hspeed%Qltb_lt).
  unfold tick. rewrite Htl, bool_decide_eq_false_2 by (by intros []).
  unfold red_violation, get_stop_data, is_inside_trigger_box.
  rewrite Hwp, Hx, Hy, Hz, Hspeed. simpl.
  by destruct (violation_logged self).
Qed.

Lemma computed_tick_past_stop_line_slow (self : t) (veh : Vehicle) :
  past_stop_line_slow get_speed dot veh →
  tick get_speed dot sub self veh
  = {| violation_logged := false; violations := violations self |}.
Proof.
  intros (tl & wp & wps & Htl & Hred & Hwp & Hdot & Hspeed%Qltb_ge).
  unfold tick. rewrite Htl, bool_decide_eq_false_2 by (by intros []).
  rewrite (computed_red_violation_stop_line _ _ _ _ _ _ _ Hwp).
  rewrite Hspeed. by rewrite andb_false_r.
Qed.

Lemma computed_ticks_slow (self : t) (slow : list Vehicle) :
  slow ≠ [] →
  Forall (past_stop_line_slow get_speed dot) slow →
  ticks get_speed dot sub self slow
  = {| violation_logged := false; violations := violations self |}.
Proof.
  intros Hne Hslow. revert self.
  induction Hslow as [|veh slow Hveh Hslow IH]; [done|]. intros self.
  unfold ticks in *. simpl. rewrite (computed_tick_past_stop_line_slow _ _ Hveh).
  destruct slow as [|veh' slow]; [done|]. by rewrite IH.
Qed.

(** Property X6.  The trigger-volume fallback counts a dwell once.
    While a red light that has no stop waypoint influences the vehicle,
    the three tests of [is_inside_trigger_box] hold on the differences
    the code computes (a difference equal to the extent passes) and the
    computed speed is above 1.0, one tick or more add exactly one to the
    [TriggerVolume] counter and nothing to [StopWaypointPassed], and
    leave the flag set. *)
Theorem trigger_volume_dwell (self : t) (dwell : list Vehicle) :
  violation_logged self = false →
  dwell ≠ [] →
  Forall (in_trigger_volume_moving get_speed sub) dwell →
  let self' := ticks get_speed dot sub self dwell in
  violation_logged self' = true ∧
  count (violations self') "TriggerVolume"
  = (count (violations self) "TriggerVolume" + 1)%Z ∧
  count (violations self') "StopWaypointPassed"
  = count (violations self) "StopWaypointPassed" ∧
  total_red self' = (total_red self + 1)%Z.
Proof.
  intros Hidle Hne Hdwell. destruct Hdwell as [|veh dwell Hveh Hdwell]; [done|].
  cbv zeta.
  assert (ticks get_speed dot sub self (veh :: dwell)
          = {| violation_logged := true;
               violations := incr "TriggerVolume" (violations self) |}) as ->.
  { unfold ticks. simpl. rewrite (computed_tick_trigger_volume _ _ Hveh), Hidle.
    clear Hne Hveh. induction Hdwell as [|veh' dwell Hveh' _ IH]; [done|].
    simpl. rewrite (computed_tick_trigger_volume _ _ Hveh'). exact IH. }
  unfold total_red. simpl.
  rewrite count_incr_eq, count_incr_ne by done. split_and!; [done..|lia].
Qed.

(** Property X7.  Slowing down re-arms the monitor within one red
    phase.  The light is red with a stop waypoint and the computed
    [dot] is above 0 the whole time; the computed speed is above 1.0
    for one tick or more, then 1.0 or less for one tick or more, then
    above 1.0 again.  The second moving stretch is counted as a new
    violation although the light never left red: the
    [StopWaypointPassed] counter goes up by two. *)
Theorem slow_tick_rearms (self : t) (dwell1 slow dwell2 : list Vehicle) :
  violation_logged self = false →
  dwell1 ≠ [] → Forall (past_stop_line_moving get_speed dot) dwell1 →
  slow ≠ [] → Forall (past_stop_line_slow get_speed dot) slow →
  dwell2 ≠ [] → Forall (past_stop_line_moving get_speed dot) dwell2 →
  count (violations (ticks get_speed dot sub self (dwell1 ++ slow ++ dwell2)))
    "StopWaypointPassed"
  = (count (violations self) "StopWaypointPassed" + 2)%Z.
Proof.
  intros Hidle Hne1 Hdwell1 Hne Hslow Hne2 Hdwell2.
  rewrite !computed_ticks_app, (computed_ticks_dwell _ _ _ self) by done.
  rewrite (computed_ticks_slow _ slow) by done.
  rewrite computed_ticks_dwell by done. simpl. rewrite !count_incr_eq. lia.
Qed.

End computed_red_light_runs.

Lemma trigger_volume_dwell_witness :
  let on_face := Sample.on_face 8 in
  let self' :=
    FloatRedLightMonitor.ticks Sample.speed_along_x dot_past Qminus RedLightMonitor.init
      [on_face; on_face; on_face] in
  RedLightMonitor.violation_logged self' = true ∧
  count (RedLightMonitor.violations self') "TriggerVolume"
  = (count (RedLightMonitor.violations RedLightMonitor.init) "TriggerVolume" + 1)%Z ∧
  count (RedLightMonitor.violations self') "StopWaypointPassed"
  = count (RedLightMonitor.violations RedLightMonitor.init) "StopWaypointPassed" ∧
  RedLightMonitor.total_red self' = (RedLightMonitor.total_red RedLightMonitor.init + 1)%Z.
Proof.
  intros on_face.
  assert (FloatRedLightMonitor.in_trigger_volume_moving Sample.speed_along_x Qminus on_face)
    as Hin.
  { exists Sample.bare_light. by split_and!. }
  apply (trigger_volume_dwell Sample.speed_along_x dot_past Qminus RedLightMonitor.init
           [on_face; on_face; on_face]).
  - reflexivity.
  - done.
  - by repeat constructor.
Defined.

Lemma slow_tick_rearms_witness :
  let moving := Sample.past_line Red 8 in
  let slow := Sample.past_line Red (1 # 2) in
  count (RedLightMonitor.violations
           (FloatRedLightMonitor.ticks Sample.speed_along_x dot_past Qminus
              RedLightMonitor.init ([moving; moving] ++ [slow] ++ [moving])))
    "StopWaypointPassed"
  = (count (RedLightMonitor.violations RedLightMonitor.init) "StopWaypointPassed" + 2)%Z.
Proof.
  intros moving slow.
  assert (FloatRedLightMonitor.past_stop_line_moving Sample.speed_along_x dot_past moving)
    as Hmoving.
  { by exists (Sample.light Red), Sample.stop_line, []. }
  assert (FloatRedLightMonitor.past_stop_line_slow Sample.speed_along_x dot_past slow)
    as Hslow.
  { by exists (Sample.light Red), Sample.stop_line, []. }
  apply (slow_tick_rearms Sample.speed_along_x dot_past Qminus RedLightMonitor.init
           [moving; moving] [slow] [moving]).
  - reflexivity.
  - done.
  - by repeat constructor.
  - done.
  - by repeat constructor.
  - done.
  - by repeat constructor.
Defined.

Section red_light_logger.
Import TrafficSignalScript.

Lemma loop_body_tick (m : RedLightMonitor.t) (s : t) (veh : Vehicle) :
  RedLightMonitor.violation_logged m = violation_logged s →
  (∀ ty, count (RedLightMonitor.violations m) ty
         = Z.of_nat (length (rows_of_type ty s))) →
  let m' := RedLightMonitor.tick m veh in
  let s' := loop_body s veh in
  RedLightMonitor.violation_logged m' = violation_logged s' ∧
  (∀ ty, count (RedLightMonitor.violations m') ty
         = Z.of_nat (length (rows_of_type ty s'))) ∧
  ∃ rows, csv_rows s' = csv_rows s ++ rows ∧
          Forall (λ row, row.1 = Red ∧
                         (row.2 = "StopWaypointPassed" ∨ row.2 = "TriggerVolume")) rows.
Proof.
  intros Hflag Hcount. unfold RedLightMonitor.tick, loop_body.
  destruct (get_traffic_light veh) as [tl|]; simpl.
  2:{ split_and!; [done|exact Hcount|]. exists []. by rewrite app_nil_r. }
  destruct (decide (get_state tl = Red)) as [Hred|Hred].
  2:{ rewrite bool_decide_eq_true_2, (bool_decide_eq_false_2 (get_state tl = Red)) by done.
      split_and!; [done|exact Hcount|]. exists []. by rewrite app_nil_r. }
  rewrite bool_decide_eq_false_2, (bool_decide_eq_true_2 (get_state tl = Red))
    by (done || by intros []).
  destruct (red_violation veh tl) as [ty|] eqn:Hty.
  2:{ split_and!; [done|exact Hcount|]. exists []. by rewrite app_nil_r. }
  rewrite Hflag. destruct (violation_logged s) eqn:Hs; simpl.
  { split_and!; [congruence|exact Hcount|]. exists []. by rewrite app_nil_r. }
  split_and!; [done| |].
  - intros ty'. unfold rows_of_type. simpl. rewrite List.filter_app, length_app. simpl.
    destruct (String.eqb_spec ty ty') as [<-|Hne]; simpl.
    + rewrite count_incr_eq, Hcount. unfold rows_of_type. lia.
    + rewrite count_incr_ne, Hcount by done. unfold rows_of_type. lia.
  - eexists. split; [done|]. apply Forall_singleton. split; [done|].
    by apply (red_violation_type veh tl).
Qed.


End red_light_logger.

(** ** Lane runs *)

Section lane_runs.
Import LaneMonitor.

Lemma _on_lane_violation_last_turn_time (self : t) (markings : list LaneMarkingType)
    (now : Q) :
  last_turn_time (_on_lane_violation self markings now) = last_turn_time self.
Proof. unfold _on_lane_violation. by repeat case_match. Qed.

Lemma _on_lane_violation_total (self : t) (markings : list LaneMarkingType) (now : Q) :
  (total_lane self ≤ total_lane (_on_lane_violation self markings now)
   ≤ total_lane self + 1)%Z.
Proof.
  unfold _on_lane_violation.
  repeat case_match; rewrite ?total_lane_record_violation by (by repeat constructor); lia.
Qed.

Lemma run_step_lane (self : t) (s : step) :
  last_turn_time (run_step self s) = last_junction_time [s] (last_turn_time self) ∧
  (total_lane self ≤ total_lane (run_step self s)
   ≤ total_lane self + (if is_invasion s then 1 else 0))%Z.
Proof.
  destruct s as [markings now|[] now]; simpl.
  - split; [apply _on_lane_violation_last_turn_time|apply _on_lane_violation_total].
  - split; [done|]. unfold total_lane. simpl. lia.
  - split; [done|]. lia.
Qed.

Lemma last_junction_time_cons (s : step) (steps : list step) (default : Q) :
  last_junction_time (s :: steps) default
  = last_junction_time steps (last_junction_time [s] default).
Proof. by destruct s as [|[]]. Qed.

(** Property X10.  Over any run of lane events and loop turns, from any
    monitor: [last_turn_time] is the clock of the last loop turn that
    found the vehicle in a junction (unchanged when there was none):
    neither a lane event nor a loop turn outside a junction moves it;
    the lane total never goes down and grows by at most the number of
    lane events; and a lane event less than 5 s after that last junction
    turn is suppressed, however many loop turns outside the junction
    came in between. *)
Theorem lane_run_window (self : t) (steps : list step) :
  let self' := run_from self steps in
  last_turn_time self' = last_junction_time steps (last_turn_time self) ∧
  (total_lane self ≤ total_lane self'
   ≤ total_lane self + Z.of_nat (length (List.filter is_invasion steps)))%Z ∧
  ∀ markings now,
    (now - last_junction_time steps (last_turn_time self) < 5)%Q →
    run_from self (steps ++ [LaneInvasion markings now]) = self'.
Proof.
  cbv zeta.
  assert (last_turn_time (run_from self steps)
          = last_junction_time steps (last_turn_time self) ∧
          (total_lane self ≤ total_lane (run_from self steps)
           ≤ total_lane self + Z.of_nat (length (List.filter is_invasion steps)))%Z)
    as [Htime Htotal].
  { revert self. induction steps as [|s steps IH]; intros self.
    - simpl. split; [done|lia].
    - destruct (run_step_lane self s) as [Ht Hn]. destruct (IH (run_step self s)) as [IHt IHn].
      unfold run_from in *. simpl fold_left. rewrite last_junction_time_cons, <- Ht.
      split; [exact IHt|]. simpl List.filter. destruct (is_invasion s); simpl length; lia. }
  split; [exact Htime|]. split; [exact Htotal|]. intros markings now Hnow.
  unfold run_from in *. rewrite fold_left_app. simpl.
  apply _on_lane_violation_suppressed. by rewrite Htime.
Qed.

End lane_runs.

(** ** Team keys *)

Section team_keys.
Import Py TeamMonitor.

Lemma lower_ascii_twice (c : ascii) : lower_ascii (lower_ascii c) = lower_ascii c.
Proof. by destruct c as [[] [] [] [] [] [] [] []]. Qed.

Lemma lower_ascii_replace (c : ascii) :
  lower_ascii (if Ascii.eqb c " " then "_"%char else c)
  = if Ascii.eqb (lower_ascii c) " " then "_"%char else lower_ascii c.
Proof. by destruct c as [[] [] [] [] [] [] [] []]. Qed.

Lemma replace_twice (c : ascii) :
  (let c' := if Ascii.eqb c " " then "_"%char else c in
   if Ascii.eqb c' " " then "_"%char else c') = if Ascii.eqb c " " then "_"%char else c.
Proof. by destruct c as [[] [] [] [] [] [] [] []]. Qed.

Lemma lower_team_name (s : string) : lower (team_name s) = team_name s.
Proof.
  unfold team_name, replace_space. induction s as [|c r IH]; [done|].
  simpl. rewrite IH. f_equal.
  rewrite lower_ascii_replace, lower_ascii_twice. done.
Qed.

Lemma team_name_twice (s : string) : team_name (team_name s) = team_name s.
Proof.
  unfold team_name, replace_space. induction s as [|c r IH]; [done|].
  simpl. rewrite IH. f_equal.
  rewrite lower_ascii_replace, lower_ascii_twice. apply replace_twice.
Qed.

Lemma isspace_lower_ascii (c : ascii) : isspace (lower_ascii c) = isspace c.
Proof. by destruct c as [[] [] [] [] [] [] [] []]. Qed.

Lemma lstrip_lower (s : string) :
  lstrip_with isspace (lower s) = lower (lstrip_with isspace s).
Proof.
  induction s as [|c r IH]; [done|]. simpl. rewrite isspace_lower_ascii.
  by destruct (isspace c).
Qed.

Lemma rstrip_lower (s : string) :
  rstrip_with isspace (lower s) = lower (rstrip_with isspace s).
Proof.
  induction s as [|c r IH]; [done|]. simpl lower. rewrite !rstrip_with_cons, IH.
  destruct (rstrip_with isspace r); simpl; [|done].
  rewrite isspace_lower_ascii. by destruct (isspace c).
Qed.

Lemma strip_lower_comm (s : string) : strip (lower s) = lower (strip s).
Proof. unfold strip, strip_with. by rewrite lstrip_lower, rstrip_lower. Qed.

(** Property X11.  The key [TeamMonitor] derives from the name typed at
    the prompt is stable: typing the key itself gives the key again, the
    key has no surrounding whitespace, no upper-case ASCII letter and no
    space, and the lower-cased name gives the same key. *)
Theorem main_team_name_stable (input : string) :
  let key := main_team_name input in
  main_team_name key = key ∧
  strip key = key ∧ lower key = key ∧ replace_space key = key ∧
  main_team_name (lower input) = key.
Proof.
  cbv zeta. split_and!.
  - unfold main_team_name at 1. rewrite strip_main_team_name.
    apply team_name_twice.
  - apply strip_main_team_name.
  - apply lower_team_name.
  - pose proof (team_name_twice (strip input)) as H. unfold main_team_name.
    unfold team_name at 1 in H. by rewrite lower_team_name in H.
  - unfold main_team_name. rewrite strip_lower_comm. unfold team_name.
    f_equal. induction (strip input) as [|c r IH]; [done|]. simpl.
    by rewrite lower_ascii_twice, IH.
Qed.

End team_keys.

(** * The leaderboard and the files of a session *)

Section master_files.
Import Py Master.

Lemma update_first_length (now team_name : string) (lane collision redlight : Z)
    (rows rows' : list rowdict) :
  update_first now team_name lane collision redlight rows = Ok (Some rows') →
  length rows' = length rows.
Proof.
  revert rows'. induction rows as [|row rows IH]; intros rows'; simpl; [done|].
  destruct (is_team row team_name) as [[]|]; simpl; [| |done].
  - destruct (update_row now lane collision redlight row); simpl; [|done].
    by intros [= <-].
  - destruct (update_first now team_name lane collision redlight rows) as [[rows''|]|];
      simpl; [|done..].
    intros [= <-]. simpl. by rewrite (IH rows'').
Qed.

Lemma merge_rows_length (now team_name : string) (lane collision redlight : Z)
    (rows rows' : list rowdict) :
  merge_rows now team_name lane collision redlight rows = Ok rows' →
  (length rows ≤ length rows' ≤ length rows + 1)%nat.
Proof.
  unfold merge_rows.
  destruct (update_first now team_name lane collision redlight rows) as [[rows''|]|] eqn:E;
    simpl; [| |done].
  - intros [= <-]. apply update_first_length in E. lia.
  - intros [= <-]. rewrite length_app. simpl. lia.
Qed.

Lemma writerows_records (rows : list rowdict) :
  Forall (λ record, length record = 10%nat) (writerows rows).1 ∧
  (length (writerows rows).1 ≤ length rows)%nat ∧
  ((writerows rows).2 = Ok tt → length (writerows rows).1 = length rows).
Proof.
  induction rows as [|row rows (IH1 & IH2 & IH3)]; simpl; [by split_and!|].
  unfold _dict_to_list. destruct (_ && _); simpl.
  - destruct (writerows rows) as [records r]. simpl in *. split_and!.
    + by constructor.
    + lia.
    + intros Hr. by rewrite IH3.
  - split_and!; [done|lia|done].
Qed.

(** Property X12.  Whatever the leaderboard file holds (no file, no
    header, another header, short, long or blank records) and whatever
    the arguments, a merge either raises before it writes and leaves
    the file untouched, or leaves a file made of the schema header and
    of records of exactly ten cells, at most one more than the rows it
    read.  When it returns normally the file has at least as many
    records as rows were read, and the next merge reads every one of
    them. *)
Theorem merge_file_shape (f : store) (now team_name : string)
    (lane collision redlight : Z) :
  let f' := (update_master_csv f now team_name lane collision redlight).1 in
  let r := (update_master_csv f now team_name lane collision redlight).2 in
  (f' = f ∧ r ≠ Ok tt) ∨
  ∃ records,
    f' = Some (fieldnames :: records) ∧
    Forall (λ record, length record = 10%nat) records ∧
    (length records ≤ length (read_rows f) + 1)%nat ∧
    (r = Ok tt →
     (length (read_rows f) ≤ length records)%nat ∧
     read_rows f' = map (DictReader_row fieldnames) records).
Proof.
  cbv zeta. unfold update_master_csv.
  destruct (merge_rows now team_name lane collision redlight (read_rows f))
    as [rows|e] eqn:E; [|by left].
  right. apply merge_rows_length in E.
  destruct (writerows_records rows) as (Hten & Hle & Heq).
  destruct (writerows rows) as [records r]. simpl in *.
  exists records. split_and!; [done|done|lia|].
  intros Hr. split; [rewrite Heq by done; lia|]. by apply read_rows_ten.
Qed.

Lemma filter_not_blank (records : list (list string)) :
  Forall (λ r, length r = 10%nat) records →
  List.filter (λ r, negb (bool_decide (r = []))) records = records.
Proof.
  induction 1 as [|r records Hr _ IH]; [done|]. simpl. rewrite IH. by destruct r.
Qed.

Lemma update_row_unparsable (now name date cl ll cc lc cr lr ct lt : string)
    (lane collision redlight : Z) :
  int ll = None ∨ int lc = None ∨ int lr = None ∨ int lt = None →
  update_row now lane collision redlight
    (DictReader_row fieldnames [name; date; cl; ll; cc; lc; cr; lr; ct; lt])
  = Raise ValueError.
Proof.
  intros H. unfold update_row.
  set (record := [name; date; cl; ll; cc; lc; cr; lr; ct; lt]).
  change (getitem (DictReader_row fieldnames record) "lowest_lane")
    with (@Ok (option string) (Some ll)).
  change (getitem (DictReader_row fieldnames record) "lowest_collision")
    with (@Ok (option string) (Some lc)).
  change (getitem (DictReader_row fieldnames record) "lowest_redlight")
    with (@Ok (option string) (Some lr)).
  cbn [mbind result_bind bind int_of].
  destruct (int ll) as [a|]; [|done]. cbn [mbind result_bind bind int_of].
  destruct (int lc) as [b|]; [|done]. cbn [mbind result_bind bind int_of].
  destruct (int lr) as [c|]; [|done]. cbn [mbind result_bind bind int_of].
  edestruct (update_row_cells record now) as [-> _]; [done|].
  cbn [mbind result_bind bind int_of lookup list_lookup record].
  destruct (int lt) as [d|]; [|done]. by destruct H as [|[|[|]]].
Qed.

(** Property X13.  When the first record of the team has a lowest cell
    (lane, collision, redlight or total) that [int] does not accept,
    the merge raises [ValueError] and leaves the file exactly as it
    was, whatever the records after it are.  The key and the records up
    to the team's are ASCII. *)
Theorem unparsable_lowest_raises (now team_name : string) (lane collision redlight : Z)
    (before after : list (list string))
    (name date cl ll cc lc cr lr ct lt : string) :
  isascii team_name = true →
  ascii_records (before ++ [[name; date; cl; ll; cc; lc; cr; lr; ct; lt]]) →
  Forall (λ r, length r = 10%nat) before →
  Forall (λ r, record_matches team_name r = false) before →
  name_matches name team_name = true →
  int ll = None ∨ int lc = None ∨ int lr = None ∨ int lt = None →
  let f := Some (fieldnames :: before
                 ++ [name; date; cl; ll; cc; lc; cr; lr; ct; lt] :: after) in
  update_master_csv f now team_name lane collision redlight = (f, Raise ValueError).
Proof.
  intros _ _ Hten Hno Hmatch Hbad. cbv zeta. unfold update_master_csv, merge_rows.
  unfold read_rows. rewrite bool_decide_eq_true_2 by done.
  unfold DictReader_rows. rewrite List.filter_app. simpl.
  rewrite filter_not_blank by done.
  rewrite update_first_match by done.
  by rewrite update_row_unparsable.
Qed.

Lemma unparsable_lowest_raises_witness :
  let f := Some [fieldnames;
                 ["alpha"; "2025-01-01 10:00:00"; "1"; "n/a"; "2"; "2"; "0"; "0"; "3"; "3"]] in
  update_master_csv f "2025-01-02 10:00:00" "Alpha" 0 0 0 = (f, Raise ValueError).
Proof.
  apply (unparsable_lowest_raises "2025-01-02 10:00:00" "Alpha" 0 0 0 [] []
           "alpha" "2025-01-01 10:00:00" "1" "n/a" "2" "2" "0" "0" "3" "3").
  - reflexivity.
  - by repeat constructor.
  - constructor.
  - constructor.
  - reflexivity.
  - left. reflexivity.
Defined.

End master_files.

Section master_sessions.
Import Py Master.

Lemma lowest_of_snoc (total : call → Z) (first : call) (later : list call) (c : call) :
  lowest_of total first (later ++ [c]) = Z.min (lowest_of total first later) (total c).
Proof. unfold lowest_of. by rewrite fold_left_app. Qed.

Lemma team_record_new (c : call) :
  team_record c []
  = new_record (call_now c) (call_team c) (call_lane c) (call_collision c) (call_redlight c).
Proof. done. Qed.

Lemma same_team_lower (team_name team_name' : string) (c : call) :
  lower team_name = lower team_name' → same_team team_name c = same_team team_name' c.
Proof. unfold same_team. by intros ->. Qed.

Lemma record_matches_lower (team_name team_name' : string) (record : list string) :
  lower team_name = lower team_name' →
  record_matches team_name record = record_matches team_name' record.
Proof. unfold record_matches, name_matches. by intros ->. Qed.

Lemma filter_ext_eq {A} (p q : A → bool) (l : list A) :
  (∀ a, p a = q a) → List.filter p l = List.filter q l.
Proof. intros H. induction l as [|a l IH]; [done|]. simpl. by rewrite H, IH. Qed.

Lemma filter_Forall_false {A} (p : A → bool) (l : list A) :
  Forall (λ a, p a = false) l → List.filter p l = [].
Proof. induction 1 as [|a l Ha _ IH]; [done|]. simpl. by rewrite Ha. Qed.

Lemma filter_first_stripped (team_name : string) (calls : list call)
    (first : call) (later : list call) :
  Forall (λ c, strip (call_team c) = call_team c) calls →
  List.filter (same_team team_name) calls = first :: later →
  strip (call_team first) = call_team first ∧
  lower (call_team first) = lower team_name.
Proof.
  intros Hcalls Hfilter.
  assert (In first (List.filter (same_team team_name) calls)) as Hin
    by (rewrite Hfilter; by left).
  apply filter_In in Hin as [Hin Hsame].
  split.
  - rewrite List.Forall_forall in Hcalls. by apply Hcalls.
  - unfold same_team in Hsame. by apply String.eqb_eq in Hsame.
Qed.

(** The invariant of the file after the merges of [calls]. *)
Lemma updates_team_records (calls : list call) :
  Forall (λ c, strip (call_team c) = call_team c) calls →
  ∃ records,
    records_of (updates None calls) = records ∧
    (updates None calls = None ∨ updates None calls = Some (fieldnames :: records)) ∧
    Forall (λ r, length r = 10%nat) records ∧
    ∀ team_name,
      List.filter (record_matches team_name) records = team_records team_name calls.
Proof.
  induction calls as [|c calls IH] using rev_ind; intros Hcalls.
  { exists []. split_and!; [done|by left|done|done]. }
  apply Forall_app in Hcalls as [Hcalls [Hc _]%Forall_cons].
  destruct (IH Hcalls) as (records & Hrecords & Hfile & Hten & Hteams). clear IH.
  unfold updates in *. rewrite fold_left_app. simpl.
  set (f := fold_left update calls None) in *.
  assert (update f c
          = (update_master_csv (Some (fieldnames :: records)) (call_now c) (call_team c)
               (call_lane c) (call_collision c) (call_redlight c)).1) as ->.
  { destruct Hfile as [Hf|Hf]; rewrite Hf in *; [|done].
    simpl in Hrecords. subst records. done. }
  clear f Hrecords Hfile.
  pose proof (Hteams (call_team c)) as Hteam.
  destruct (first_match (call_team c) records)
    as [Hno | (before & record & after & -> & Hno & Hmatch)].
  - (* the first session of the team *)
    rewrite update_master_csv_new_team by done. simpl.
    eexists. split; [done|]. split; [by right|]. split.
    { apply Forall_app. split; [done|]. by repeat constructor. }
    rewrite (filter_Forall_false _ _ Hno) in Hteam. unfold team_records in Hteam.
    destruct (List.filter (same_team (call_team c)) calls) as [|first later] eqn:Hfilter;
      [|done].
    intros team_name. rewrite List.filter_app. unfold team_records.
    rewrite List.filter_app. simpl.
    unfold name_matches. rewrite Hc. fold (same_team team_name c).
    destruct (same_team team_name c) eqn:Hsame.
    + assert (lower team_name = lower (call_team c)) as Hlower.
      { unfold same_team in Hsame. by apply String.eqb_eq in Hsame. }
      rewrite (filter_ext_eq _ _ calls (λ c0, same_team_lower _ _ c0 Hlower)), Hfilter.
      rewrite (filter_ext_eq _ _ records
                 (λ r, record_matches_lower _ _ r Hlower)).
      by rewrite (filter_Forall_false _ _ Hno).
    + rewrite !app_nil_r. apply Hteams.
  - (* a later session of the team *)
    rewrite List.filter_app in Hteam. simpl in Hteam.
    rewrite (filter_Forall_false _ _ Hno) in Hteam.
    rewrite Hmatch in Hteam. simpl in Hteam.
    unfold team_records in Hteam.
    destruct (List.filter (same_team (call_team c)) calls) as [|first later] eqn:Hfilter;
      [done|].
    injection Hteam as Hrecord Hafter.
    destruct (filter_first_stripped _ _ _ _ Hcalls Hfilter) as [Hstripped Hfirst].
    apply Forall_app in Hten as [Hbefore [_ Hafter_ten]%Forall_cons].
    subst record. unfold team_record.
    rewrite (update_master_csv_known_team _ _ _ _ _ _ _ _ _ _ _ _ _ _ _ _ _
               (lowest_of call_lane first later) (lowest_of call_collision first later)
               (lowest_of call_redlight first later) (lowest_of call_total first later));
      [|by apply Forall_app|exact Hno|exact Hmatch|apply int_str..].
    simpl. eexists. split; [done|]. split; [by right|]. split.
    { apply Forall_app. split; [done|]. by constructor. }
    intros team_name. rewrite List.filter_app. simpl.
    unfold name_matches. rewrite Hstripped, Hfirst.
    change (String.eqb (lower (call_team c)) (lower team_name))
      with (same_team team_name c).
    unfold team_records. rewrite List.filter_app. simpl.
    destruct (same_team team_name c) eqn:Hsame.
    + assert (lower team_name = lower (call_team c)) as Hlower.
      { unfold same_team in Hsame. by apply String.eqb_eq in Hsame. }
      rewrite (filter_ext_eq _ _ calls (λ c0, same_team_lower _ _ c0 Hlower)), Hfilter.
      rewrite !(filter_ext_eq _ _ _ (λ r, record_matches_lower _ _ r Hlower)).
      rewrite (filter_Forall_false _ _ Hno), Hafter. simpl.
      unfold team_record. rewrite last_last, !lowest_of_snoc. done.
    + rewrite app_nil_r. specialize (Hteams team_name).
      rewrite List.filter_app in Hteams. simpl in Hteams.
      unfold team_record at 1, name_matches in Hteams.
      rewrite Hstripped, Hfirst in Hteams.
      change (String.eqb (lower (call_team c)) (lower team_name))
        with (same_team team_name c) in Hteams.
      by rewrite Hsame in Hteams.
Qed.

(** Property X14.  The leaderboard summarises the sessions.  From no
    file, after any sequence of merges whose keys are ASCII and have no
    surrounding whitespace, and for every ASCII team name: the file
    holds no record of the team when no merge had its key (keys
    compared without case), and otherwise exactly one, which carries
    the key as the first of the team's merges spelled it, the date and
    the four current fields of the last one, and in each lowest field
    the minimum over all the team's merges: of the lane, collision and
    red-light totals, and of their sum for [lowest_total]. *)
Theorem leaderboard_summarises_sessions (calls : list call) (team_name : string) :
  Forall (λ c, isascii (call_team c) = true) calls →
  isascii team_name = true →
  Forall (λ c, strip (call_team c) = call_team c) calls →
  List.filter (record_matches team_name) (records_of (updates None calls))
  = team_records team_name calls.
Proof.
  intros _ _ Hcalls.
  destruct (updates_team_records calls Hcalls) as (records & -> & _ & _ & Hteams).
  apply Hteams.
Qed.

Lemma leaderboard_summarises_sessions_witness :
  let calls :=
    [ {| call_now := "2025-01-01 10:00:00"; call_team := "Alpha";
         call_lane := 3; call_collision := 1; call_redlight := 0 |};
      {| call_now := "2025-01-01 11:00:00"; call_team := "beta";
         call_lane := 0; call_collision := 0; call_redlight := 2 |};
      {| call_now := "2025-01-02 10:00:00"; call_team := "alpha";
         call_lane := 1; call_collision := 2; call_redlight := 1 |} ] in
  List.filter (record_matches "ALPHA") (records_of (updates None calls))
  = team_records "ALPHA" calls.
Proof.
  intros calls. apply (leaderboard_summarises_sessions calls "ALPHA").
  - by repeat constructor.
  - reflexivity.
  - by repeat constructor.
Defined.

End master_sessions.

Section master_entries.
Import Py Master.

Lemma entry_of_merged (name now : string) (lane collision redlight : Z) (e : entry) :
  entry_of
    [ name; now; str lane; str (Z.min (lowest_lane e) lane);
      str collision; str (Z.min (lowest_collision e) collision);
      str redlight; str (Z.min (lowest_redlight e) redlight);
      str (lane + collision + redlight);
      str (Z.min (lowest_total e) (lane + collision + redlight)) ]
  = Some (merged_entry lane collision redlight e).
Proof. unfold entry_of. by rewrite !int_str. Qed.

Lemma entry_of_new_record (now team_name : string) (lane collision redlight : Z) :
  entry_of (new_record now team_name lane collision redlight)
  = Some (created_entry lane collision redlight).
Proof. unfold entry_of, new_record. by rewrite !int_str. Qed.

Lemma entry_with_length (P : entry → Prop) (record : list string) :
  entry_with P record → length record = 10%nat.
Proof.
  intros (e & He & _). apply entry_of_cells in He.
  by destruct He as (? & ? & ? & ? & ? & ? & ? & ? & ? & ? & -> & _).
Qed.

(** A property of entries that the entry of a new team has and that a
    merge keeps holds of every record after a merge, which does not
    raise. *)
Lemma update_master_csv_entries (P : entry → Prop) (records : list (list string))
    (now team_name : string) (lane collision redlight : Z) :
  P (created_entry lane collision redlight) →
  (∀ e, P e → P (merged_entry lane collision redlight e)) →
  Forall (entry_with P) records →
  ∃ records',
    update_master_csv (Some (fieldnames :: records)) now team_name lane collision redlight
      = (Some (fieldnames :: records'), Ok tt) ∧
    Forall (entry_with P) records'.
Proof.
  intros Hnew Hmerge Hgood.
  assert (Forall (λ r, length r = 10%nat) records) as Hten.
  { eapply Forall_impl; [exact Hgood|]. apply entry_with_length. }
  destruct (first_match team_name records)
    as [Hno | (before & record & after & -> & Hno & Hmatch)].
  - eexists. split; [by apply update_master_csv_new_team|].
    apply Forall_app. split; [done|]. repeat constructor.
    eexists. split; [apply entry_of_new_record|done].
  - apply Forall_app in Hgood as [Hbefore Hgood].
    apply Forall_cons in Hgood as [(e & He & HP) Hafter].
    apply entry_of_cells in He
      as (name & date & cl & ll & cc & lc & cr & lr & ct & lt & -> &
          Hcl & Hll & Hcc & Hlc & Hcr & Hlr & Hct & Hlt).
    assert (Forall (λ r, length r = 10%nat) (before ++ after)) as Hten'.
    { apply Forall_app in Hten as [? [_ ?]%Forall_cons]. by apply Forall_app. }
    eexists. split.
    { by apply (update_master_csv_known_team _ _ _ _ _ _ _ _ _ _ _ _ _ _ _ _ _
                  (lowest_lane e) (lowest_collision e) (lowest_redlight e)
                  (lowest_total e)). }
    apply Forall_app. split; [done|]. apply Forall_cons. split; [|done].
    eexists. split; [apply entry_of_merged|]. by apply Hmerge.
Qed.

Lemma sound_created (lane collision redlight : Z) :
  (0 ≤ lane)%Z → (0 ≤ collision)%Z → (0 ≤ redlight)%Z →
  sound (created_entry lane collision redlight).
Proof. unfold sound, lowest_nonneg, lowest_le_current. simpl. lia. Qed.

Lemma sound_merged (lane collision redlight : Z) (e : entry) :
  (0 ≤ lane)%Z → (0 ≤ collision)%Z → (0 ≤ redlight)%Z →
  sound e → sound (merged_entry lane collision redlight e).
Proof. unfold sound, lowest_nonneg, lowest_le_current. simpl. lia. Qed.

Lemma update_master_csv_sound (f : store)
    (now team_name : string) (lane collision redlight : Z) :
  (0 ≤ lane)%Z → (0 ≤ collision)%Z → (0 ≤ redlight)%Z →
  f = None ∨ f = Some (fieldnames :: records_of f) →
  Forall (entry_with sound) (records_of f) →
  ∃ records',
    update_master_csv f now team_name lane collision redlight
      = (Some (fieldnames :: records'), Ok tt) ∧
    Forall (entry_with sound) records'.
Proof.
  intros Hl Hc Hr [-> | Hf] Hsound.
  - rewrite update_master_csv_absent. eexists. split; [done|].
    repeat constructor. eexists. split; [apply entry_of_new_record|].
    by apply sound_created.
  - rewrite Hf. apply update_master_csv_entries; [|intros e|done].
    + by apply sound_created.
    + by apply sound_merged.
Qed.


End master_entries.

Section sessions.
Import Py Master TeamMonitor.

Lemma string_length_append (a b : string) :
  String.length (String.append a b) = (String.length a + String.length b)%nat.
Proof. induction a as [|c a IH]; simpl; [done|]. by rewrite IH. Qed.

Lemma append_inj_l (a b s : string) : String.append a s = String.append b s → a = b.
Proof.
  revert b. induction a as [|c a IH]; intros [|c' b]; simpl; intros H.
  - done.
  - apply (f_equal String.length) in H. rewrite !string_length_append in H. simpl in H. lia.
  - apply (f_equal String.length) in H. rewrite !string_length_append in H. simpl in H. lia.
  - change (String c (String.append a s) = String c' (String.append b s)) in H.
    injection H as -> H. by rewrite (IH b H).
Qed.

Lemma team_csv_inj (key key' : string) : team_csv key = team_csv key' → key = key'.
Proof. apply append_inj_l. Qed.

Lemma team_csv_master_path (key : string) :
  key ≠ "master_violation" → team_csv key ≠ master_path.
Proof. intros Hne H. apply Hne. by apply (append_inj_l _ _ ".csv"). Qed.

Lemma update_master_csv_store (f : store) (now team_name : string)
    (lane collision redlight : Z) :
  (update_master_csv f now team_name lane collision redlight).1 = None → f = None.
Proof.
  unfold update_master_csv.
  destruct (merge_rows now team_name lane collision redlight (read_rows f)); [|done].
  by destruct (writerows a).
Qed.

End sessions.

(** ** Runs of [main] on one directory *)

Section computed_sessions.
Import Py Master TeamMonitor FloatTeamMonitor.
Variable euclidean_distance : Vector3D → Vector3D → Q.
Variable get_speed : Vector3D → Q.
Variable dot : Vector3D → Vector3D → Vector3D → Q.
Variable sub : Q → Q → Q.

#[local] Abbreviation run := (FloatTeamMonitor.run euclidean_distance get_speed dot sub).
#[local] Abbreviation main := (FloatTeamMonitor.main euclidean_distance get_speed dot sub).
#[local] Abbreviation mains := (FloatTeamMonitor.mains euclidean_distance get_speed dot sub).
#[local] Abbreviation call_of_run :=
  (FloatTeamMonitor.call_of_run euclidean_distance get_speed dot sub).
#[local] Abbreviation row_of_run :=
  (FloatTeamMonitor.row_of_run euclidean_distance get_speed dot sub).
#[local] Abbreviation history :=
  (FloatTeamMonitor.history euclidean_distance get_speed dot sub).

(** What [_init_team_csv] and [cleanup] do to the files, for a team
    whose history file is not the leaderboard. *)
Lemma _init_team_csv_files (d : dir) (name : string) :
  name ≠ "master_violation" →
  _init_team_csv d name !! master_path = d !! master_path ∧
  ∀ key,
    _init_team_csv d name !! team_csv key =
      if String.eqb name key then
        Some (match d !! team_csv key with
              | Some records => records
              | None => [team_header]
              end)
      else d !! team_csv key.
Proof.
  intros Hname. unfold _init_team_csv. split.
  - destruct (d !! team_csv name); [done|].
    by rewrite lookup_insert_ne by (by apply team_csv_master_path).
  - intros key. destruct (String.eqb_spec name key) as [<-|Hne].
    + destruct (d !! team_csv name) eqn:E; [done|]. by rewrite lookup_insert_eq.
    + destruct (d !! team_csv name); [done|].
      by rewrite lookup_insert_ne by (by intros ?%team_csv_inj).
Qed.

Lemma cleanup_files (d : dir) (name ts now : string) (self : t) :
  name ≠ "master_violation" →
  let u := update_master_csv (d !! master_path) now name
             (LaneMonitor.total_lane (lane self))
             (CollisionMonitor.total_collisions (collision self))
             (RedLightMonitor.total_red (redlight self)) in
  (cleanup d name ts now self).2 = u.2 ∧
  (cleanup d name ts now self).1 !! master_path = u.1 ∧
  ∀ key, key ≠ "master_violation" →
    (cleanup d name ts now self).1 !! team_csv key =
      if String.eqb name key then
        Some (default [] (d !! team_csv key) ++ [summary_row self ts])
      else d !! team_csv key.
Proof.
  intros Hname. cbv zeta. unfold cleanup.
  set (d2 := <[team_csv name := _]> d).
  assert (d2 !! master_path = d !! master_path) as Hmaster.
  { unfold d2. by rewrite lookup_insert_ne by (by apply team_csv_master_path). }
  rewrite Hmaster.
  destruct (update_master_csv (d !! master_path) now name
              (LaneMonitor.total_lane (lane self))
              (CollisionMonitor.total_collisions (collision self))
              (RedLightMonitor.total_red (redlight self))) as [master r] eqn:Hu.
  simpl. split; [done|]. split.
  { destruct master as [f|]; [by rewrite lookup_insert_eq|].
    rewrite Hmaster. apply (f_equal fst) in Hu. simpl in Hu.
    by apply update_master_csv_store in Hu. }
  intros key Hkey.
  assert (d2 !! team_csv key =
          if String.eqb name key then
            Some (default [] (d !! team_csv key) ++ [summary_row self ts])
          else d !! team_csv key) as Hd2.
  { unfold d2. destruct (String.eqb_spec name key) as [<-|Hne].
    - by rewrite lookup_insert_eq.
    - by rewrite lookup_insert_ne by (by intros ?%team_csv_inj). }
  destruct master as [f|]; [|done].
  rewrite lookup_insert_ne; [done|].
  apply not_eq_sym. by apply team_csv_master_path.
Qed.

(** What one run of [main] does to the files. *)
Lemma main_files (d : dir) (input : string) (e : run_end) :
  main_team_name input ≠ "master_violation" →
  let r := (input, e) in
  (main d input e).1 !! master_path =
    match call_of_run r with
    | Some c => update (d !! master_path) c
    | None => d !! master_path
    end ∧
  ∀ key, key ≠ "master_violation" →
    (main d input e).1 !! team_csv key =
      if run_of key r then
        Some (match d !! team_csv key with
              | Some records => records
              | None => [team_header]
              end ++ match row_of_run r with Some row => [row] | None => [] end)
      else d !! team_csv key.
Proof.
  intros Hname. cbv zeta.
  unfold FloatTeamMonitor.main, FloatTeamMonitor.call_of_run, FloatTeamMonitor.row_of_run,
    run_of, reaches_files, session_of, named.
  cbn [fst snd]. case_bool_decide as Hblank; cbn [negb andb].
  { split; [by destruct e|]. intros key _. by destruct e. }
  fold (main_team_name input). set (name := main_team_name input) in *.
  destruct (_init_team_csv_files d name Hname) as [Hinit_master Hinit].
  destruct e as [| |s]; cbn [fst snd andb].
  - done.
  - split; [done|]. intros key _. rewrite Hinit.
    destruct (String.eqb name key); [|done]. by rewrite app_nil_r.
  - destruct (cleanup_files (_init_team_csv d name) name (session_ts s) (session_now s)
                (run (session_events s)) Hname) as (_ & Hmaster & Hhistory).
    cbv zeta in Hmaster. unfold csv_file in *. rewrite Hinit_master in Hmaster.
    split; [exact Hmaster|]. intros key Hkey.
    rewrite (Hhistory key Hkey), Hinit.
    destruct (String.eqb name key); [|done]. by destruct (d !! team_csv key).
Qed.

(** How the merge of a run ends. *)
Lemma main_result (d : dir) (input : string) (e : run_end) :
  main_team_name input ≠ "master_violation" →
  (main d input e).2 =
    if named (input, e) then
      match e with
      | InLoop s =>
          Some (update_master_csv (d !! master_path) (session_now s)
                  (main_team_name input)
                  (LaneMonitor.total_lane (lane (run (session_events s))))
                  (CollisionMonitor.total_collisions (collision (run (session_events s))))
                  (RedLightMonitor.total_red (redlight (run (session_events s))))).2
      | _ => None
      end
    else Some (Ok tt).
Proof.
  intros Hname. unfold FloatTeamMonitor.main, named. cbn [fst snd].
  case_bool_decide as Hblank; cbn [negb]; [done|].
  fold (main_team_name input). set (name := main_team_name input) in *.
  destruct e as [| |s]; cbn [fst snd]; [done..|].
  destruct (cleanup_files (_init_team_csv d name) name (session_ts s) (session_now s)
              (run (session_events s)) Hname) as (Hresult & _ & _).
  destruct (_init_team_csv_files d name Hname) as [Hinit_master _].
  cbv zeta in Hresult. unfold csv_file in *.
  rewrite Hinit_master in Hresult. by rewrite Hresult.
Qed.

Lemma mains_snoc (d : dir) (runs : list (string * run_end)) (r : string * run_end) :
  mains d (runs ++ [r]) = (main (mains d runs) r.1 r.2).1.
Proof. unfold FloatTeamMonitor.mains. by rewrite fold_left_app. Qed.

Lemma updates_snoc (f : store) (calls : list call) (c : call) :
  updates f (calls ++ [c]) = update (updates f calls) c.
Proof. unfold updates. by rewrite fold_left_app. Qed.

Lemma mains_master (runs : list (string * run_end)) :
  Forall (λ r, main_team_name r.1 ≠ "master_violation") runs →
  mains ∅ runs !! master_path = updates None (omap call_of_run runs).
Proof.
  induction runs as [|[input e] runs IH] using rev_ind; intros Hruns; [done|].
  apply Forall_app in Hruns as [Hruns [Hr _]%Forall_cons].
  rewrite mains_snoc, omap_app. cbn [fst snd omap list_omap].
  destruct (main_files (mains ∅ runs) input e Hr) as (-> & _).
  rewrite IH by done. destruct (call_of_run (input, e)); simpl.
  - by rewrite updates_snoc.
  - by rewrite app_nil_r.
Qed.


Lemma count_incr_nonneg (d : gmap string Z) (key key' : string) :
  (∀ k, 0 ≤ count d k)%Z → (0 ≤ count (incr key d) key')%Z.
Proof.
  intros H. destruct (decide (key = key')) as [<-|Hne].
  - rewrite count_incr_eq. specialize (H key). lia.
  - by rewrite count_incr_ne.
Qed.

Lemma step_nonneg (self : t) (e : event) :
  ((∀ k, 0 ≤ count (LaneMonitor.violations (lane self)) k) ∧
   0 ≤ CollisionMonitor.static_count (collision self) ∧
   0 ≤ CollisionMonitor.dynamic_count (collision self) ∧
   (∀ k, 0 ≤ count (RedLightMonitor.violations (redlight self)) k))%Z →
  let self' := FloatTeamMonitor.step euclidean_distance get_speed dot sub self e in
  ((∀ k, 0 ≤ count (LaneMonitor.violations (lane self')) k) ∧
   0 ≤ CollisionMonitor.static_count (collision self') ∧
   0 ≤ CollisionMonitor.dynamic_count (collision self') ∧
   (∀ k, 0 ≤ count (RedLightMonitor.violations (redlight self')) k))%Z.
Proof.
  intros (Hlane & Hstatic & Hdynamic & Hred).
  destruct e as [markings now|loc type_id|is_junction now|veh|loc]; simpl.
  - split_and!; [|done..]. intros k. unfold LaneMonitor._on_lane_violation.
    repeat case_match; simpl; by try apply count_incr_nonneg.
  - split_and!; [done| | |done];
      unfold FloatCollisionMonitor._on_collision; repeat case_match; simpl; lia.
  - split_and!; [|done..]. by destruct is_junction.
  - split_and!; [done..|]. intros k. unfold FloatRedLightMonitor.tick.
    repeat case_match; simpl; by try apply count_incr_nonneg.
  - by split_and!.
Qed.

Lemma run_nonneg (events : list event) :
  (0 ≤ LaneMonitor.total_lane (lane (run events)) ∧
   0 ≤ CollisionMonitor.total_collisions (collision (run events)) ∧
   0 ≤ RedLightMonitor.total_red (redlight (run events)))%Z.
Proof.
  assert ((∀ k, 0 ≤ count (LaneMonitor.violations (lane (run events))) k) ∧
          0 ≤ CollisionMonitor.static_count (collision (run events)) ∧
          0 ≤ CollisionMonitor.dynamic_count (collision (run events)) ∧
          (∀ k, 0 ≤ count (RedLightMonitor.violations (redlight (run events))) k))%Z
    as (Hlane & Hstatic & Hdynamic & Hred).
  { unfold FloatTeamMonitor.run.
    assert ((∀ k, 0 ≤ count (LaneMonitor.violations (lane start)) k) ∧
            0 ≤ CollisionMonitor.static_count (collision start) ∧
            0 ≤ CollisionMonitor.dynamic_count (collision start) ∧
            (∀ k, 0 ≤ count (RedLightMonitor.violations (redlight start)) k))%Z
      as Hstart by (by split_and!).
    revert Hstart. generalize start.
    induction events as [|e events IH]; intros self Hself; [done|].
    simpl. apply IH. by apply step_nonneg. }
  unfold LaneMonitor.total_lane, CollisionMonitor.total_collisions,
    RedLightMonitor.total_red.
  pose proof (Hlane "illegal_double_solid_cross").
  pose proof (Hlane "illegal_solid_cross").
  pose proof (Hlane "unjustified_dashed_cross").
  pose proof (Hred "StopWaypointPassed").
  pose proof (Hred "TriggerVolume"). lia.
Qed.

Lemma mains_master_sound (runs : list (string * run_end)) :
  Forall (λ r, main_team_name r.1 ≠ "master_violation") runs →
  let f := mains ∅ runs !! master_path in
  (f = None ∨ f = Some (fieldnames :: records_of f)) ∧
  Forall (entry_with sound) (records_of f).
Proof.
  induction runs as [|[input e] runs IH] using rev_ind; intros Hruns.
  { split; [by left|done]. }
  apply Forall_app in Hruns as [Hruns [Hr _]%Forall_cons].
  destruct (IH Hruns) as [Hfile Hsound]. clear IH. cbv zeta.
  rewrite mains_snoc. cbn [fst snd].
  destruct (main_files (mains ∅ runs) input e Hr) as (Hmaster & _).
  unfold csv_file in *. rewrite Hmaster.
  unfold FloatTeamMonitor.call_of_run.
  destruct (session_of (input, e)) as [s|]; [|done].
  destruct (run_nonneg (session_events s)) as (Hlane & Hcollision & Hred).
  destruct (update_master_csv_sound (mains ∅ runs !! master_path)
              (session_now s) (main_team_name input)
              _ _ _ Hlane Hcollision Hred Hfile Hsound) as (records' & Hu & Hsound').
  unfold update. unfold csv_file in *. simpl in *. rewrite Hu. simpl.
  split; [by right|done].
Qed.



End computed_sessions.




Section shared_file.
Import Py Master TeamMonitor.

Lemma str_head (n : Z) :
  ∃ c r, str n = String c r ∧ isspace c = false ∧ lower_ascii c ≠ "m"%char.
Proof.
  unfold str. destruct n as [|p|p]; simpl.
  - by eexists _, _.
  - rewrite string_of_uint_to_uint. pose proof (Unsigned.to_uint_nonnil p) as Hnil.
    destruct (Pos.to_uint p); [done|..]; simpl; by eexists _, _.
  - by eexists _, _.
Qed.

Lemma eqb_head (c c' : ascii) (r r' : string) :
  c ≠ c' → String.eqb (String c r) (String c' r') = false.
Proof. intros Hne. simpl. by destruct (Ascii.eqb_spec c c'). Qed.

Lemma name_matches_str (n : Z) : name_matches (str n) "master_violation" = false.
Proof.
  destruct (str_head n) as (c & r & -> & Hspace & Hm).
  unfold name_matches, strip, strip_with. cbn [lstrip_with]. rewrite Hspace.
  rewrite rstrip_with_cons.
  destruct (rstrip_with isspace r); [rewrite Hspace|]; by apply eqb_head.
Qed.

Lemma eleven_cells (c0 c1 c2 c3 c4 c5 c6 c7 c8 c9 c10 team_name : string) :
  let row := DictReader_row fieldnames [c0; c1; c2; c3; c4; c5; c6; c7; c8; c9; c10] in
  is_team row team_name = Ok (name_matches c0 team_name) ∧
  _dict_to_list row = Raise ValueError.
Proof. done. Qed.

Lemma update_first_skip (now team_name : string) (lane collision redlight : Z)
    (before : list (list string)) (rows : list rowdict) :
  Forall (λ r, length r = 10%nat) before →
  Forall (λ r, record_matches team_name r = false) before →
  update_first now team_name lane collision redlight
    (map (DictReader_row fieldnames) before ++ rows)
  = (r ← update_first now team_name lane collision redlight rows;
     Ok (option_map (app (map (DictReader_row fieldnames) before)) r)).
Proof.
  intros Hten Hno. induction Hten as [|r before Hr _ IH]; simpl.
  - by destruct (update_first now team_name lane collision redlight rows) as [[]|].
  - apply Forall_cons in Hno as [Hno1 Hno].
    rewrite is_team_DictReader_row, Hno1 by done. simpl. rewrite IH by done.
    by destruct (update_first now team_name lane collision redlight rows) as [[]|].
Qed.

Lemma update_first_app (now team_name : string) (lane collision redlight : Z)
    (rows rows' rest : list rowdict) :
  update_first now team_name lane collision redlight rows = Ok (Some rows') →
  update_first now team_name lane collision redlight (rows ++ rest)
  = Ok (Some (rows' ++ rest)).
Proof.
  revert rows'. induction rows as [|row rows IH]; intros rows'; [done|].
  simpl. destruct (is_team row team_name) as [[]|]; simpl; [| |done].
  - destruct (update_row now lane collision redlight row); simpl; [|done].
    by intros [= <-].
  - destruct (update_first now team_name lane collision redlight rows)
      as [[rows''|]|] eqn:E; simpl; [|done..].
    intros [= <-]. by rewrite (IH rows'' eq_refl).
Qed.

(** The loop of lines 44-58 does not raise on records that read as
    entries, and returns as many rows as it was given. *)
Lemma update_first_entries (P : entry → Prop) (now team_name : string)
    (lane collision redlight : Z) (records : list (list string)) :
  Forall (entry_with P) records →
  update_first now team_name lane collision redlight
    (map (DictReader_row fieldnames) records) = Ok None ∨
  ∃ before row' after,
    update_first now team_name lane collision redlight
      (map (DictReader_row fieldnames) records)
    = Ok (Some (map (DictReader_row fieldnames) before ++ row' ::
                map (DictReader_row fieldnames) after)) ∧
    (∃ record', _dict_to_list row' = Ok record') ∧
    Forall (λ r, length r = 10%nat) (before ++ after) ∧
    length records = S (length before + length after).
Proof.
  intros Hgood.
  assert (Forall (λ r, length r = 10%nat) records) as Hten.
  { eapply Forall_impl; [exact Hgood|]. apply entry_with_length. }
  destruct (first_match team_name records)
    as [Hno | (before & record & after & -> & Hno & Hmatch)].
  - left. by apply update_first_no_match.
  - right. apply Forall_app in Hgood as [_ [(e & He & _) _]%Forall_cons].
    apply entry_of_cells in He
      as (name & date & cl & ll & cc & lc & cr & lr & ct & lt & -> &
          Hcl & Hll & Hcc & Hlc & Hcr & Hlr & Hct & Hlt).
    apply Forall_app in Hten as [Hten_before [Hten_record Hten_after]%Forall_cons].
    destruct (update_row_DictReader_row now name date cl ll cc lc cr lr ct lt
                lane collision redlight _ _ _ _ Hll Hlc Hlr Hlt) as (row' & Hrow & Hcells).
    exists before, row', after. split_and!.
    + rewrite update_first_match by done. by rewrite Hrow.
    + by eexists.
    + by apply Forall_app.
    + rewrite length_app. simpl. lia.
Qed.

Lemma writerows_stops (records : list (list string)) (bad : rowdict)
    (rows : list rowdict) :
  Forall (λ r, length r = 10%nat) records →
  _dict_to_list bad = Raise ValueError →
  writerows (map (DictReader_row fieldnames) records ++ bad :: rows)
  = (records, Raise ValueError).
Proof.
  intros Hten Hbad.
  rewrite (writerows_app _ _ records) by (by apply writerows_DictReader_rows).
  cbn [writerows]. rewrite Hbad. cbn [fst snd]. by rewrite app_nil_r.
Qed.

Lemma filter_not_blank_long (records later : list (list string)) (long : list string) :
  Forall (λ r, length r = 10%nat) (records ++ later) →
  long ≠ [] →
  List.filter (λ r, negb (bool_decide (r = []))) (records ++ long :: later)
  = records ++ long :: later.
Proof.
  intros [Hrecords Hlater]%Forall_app Hlong.
  rewrite List.filter_app. simpl.
  rewrite !filter_not_blank by done. by rewrite bool_decide_eq_false_2.
Qed.

(** A merge into a leaderboard with a record of eleven cells. *)
Lemma update_master_csv_long_record (records later : list (list string))
    (c0 c1 c2 c3 c4 c5 c6 c7 c8 c9 c10 now team_name : string)
    (lane collision redlight : Z) :
  Forall (entry_with sound) (records ++ later) →
  name_matches c0 team_name = false →
  ∃ records',
    update_master_csv
      (Some (fieldnames :: records
             ++ [c0; c1; c2; c3; c4; c5; c6; c7; c8; c9; c10] :: later))
      now team_name lane collision redlight
    = (Some (fieldnames :: records'), Raise ValueError) ∧
    length records' = length records.
Proof.
  intros Hsound Hc0.
  assert (Forall (λ r, length r = 10%nat) (records ++ later)) as Hten.
  { eapply Forall_impl; [exact Hsound|]. apply entry_with_length. }
  set (long := [c0; c1; c2; c3; c4; c5; c6; c7; c8; c9; c10]).
  destruct (eleven_cells c0 c1 c2 c3 c4 c5 c6 c7 c8 c9 c10 team_name) as [Hteam Hlist].
  fold long in Hteam, Hlist. rewrite Hc0 in Hteam.
  unfold update_master_csv, merge_rows, read_rows.
  rewrite bool_decide_eq_true_2 by done.
  unfold DictReader_rows. rewrite filter_not_blank_long by done.
  apply Forall_app in Hsound as [Hrecords Hlater].
  apply Forall_app in Hten as [Hten_records Hten_later].
  rewrite map_app. cbn [map].
  destruct (update_first_entries sound now team_name lane collision redlight
              records Hrecords)
    as [Hnone | (before & row' & after & Hsome & [record' Hrow'] & Hten' & Hlen)].
  - (* no record of the team before the long one *)
    assert (Forall (λ r, record_matches team_name r = false) records) as Hno.
    { destruct (first_match team_name records)
        as [Hno | (before & record & after & -> & Hno & Hmatch)]; [done|].
      apply Forall_app in Hten_records as [? [? ?]%Forall_cons].
      rewrite update_first_match in Hnone by done.
      by destruct (update_row now lane collision redlight
                     (DictReader_row fieldnames record)). }
    rewrite update_first_skip by done. cbn [update_first]. rewrite Hteam.
    cbn [mbind result_bind bind].
    destruct (update_first_entries sound now team_name lane collision redlight
                later Hlater)
      as [-> | (before & row' & after & -> & _)];
      cbn [mbind result_bind bind option_map].
    + rewrite <- app_assoc, <- app_comm_cons. rewrite writerows_stops by done. by exists records.
    + rewrite writerows_stops by done. by exists records.
  - (* the team's record comes before the long one *)
    apply Forall_app in Hten' as [Hten_before Hten_after].
    rewrite (update_first_app _ _ _ _ _ _ _ _ Hsome).
    cbn [mbind result_bind bind].
    rewrite <- (app_assoc (map (DictReader_row fieldnames) before)), <- app_comm_cons.
    rewrite (writerows_app _ _ before) by (by apply writerows_DictReader_rows).
    cbn [writerows]. rewrite Hrow'.
    rewrite writerows_stops by done. cbn [fst snd].
    eexists. split; [done|]. rewrite length_app. simpl. lia.
Qed.

Lemma existsb_Forall_false {A} (p : A → bool) (l : list A) :
  Forall (λ a, p a = false) l → existsb p l = false.
Proof. induction 1 as [|a l Ha _ IH]; [done|]. simpl. by rewrite Ha. Qed.

(** Property X17.  A record of eleven cells truncates the leaderboard.
    When the file holds one record of eleven cells among records that
    read as sound entries, all ASCII, a merge for an ASCII key that is
    not the one named in that record raises [ValueError] after it has
    rewritten the file: the long record and every record after it are
    gone, and the records that came before the long one are left as a
    merge into them alone leaves them when the team has one of them
    (its first record merged into, the others kept), and untouched
    otherwise; the team's new record is then lost too. *)
Theorem long_record_truncates (records later : list (list string))
    (c0 c1 c2 c3 c4 c5 c6 c7 c8 c9 c10 now team_name : string)
    (lane collision redlight : Z) :
  isascii team_name = true →
  ascii_records (records ++ [c0; c1; c2; c3; c4; c5; c6; c7; c8; c9; c10] :: later) →
  Forall (entry_with sound) (records ++ later) →
  name_matches c0 team_name = false →
  let f := Some (fieldnames :: records
                 ++ [c0; c1; c2; c3; c4; c5; c6; c7; c8; c9; c10] :: later) in
  let u := update_master_csv f now team_name lane collision redlight in
  u.2 = Raise ValueError ∧
  u.1 = Some (fieldnames ::
                if existsb (record_matches team_name) records
                then records_of
                       (update_master_csv (Some (fieldnames :: records))
                          now team_name lane collision redlight).1
                else records).
Proof.
  intros _ _ Hsound Hc0. cbv zeta.
  assert (Forall (λ r, length r = 10%nat) (records ++ later)) as Hten.
  { eapply Forall_impl; [exact Hsound|]. apply entry_with_length. }
  set (long := [c0; c1; c2; c3; c4; c5; c6; c7; c8; c9; c10]).
  destruct (eleven_cells c0 c1 c2 c3 c4 c5 c6 c7 c8 c9 c10 team_name) as [Hteam Hlist].
  fold long in Hteam, Hlist. rewrite Hc0 in Hteam.
  assert (read_rows (Some (fieldnames :: records ++ long :: later))
          = map (DictReader_row fieldnames) records
            ++ DictReader_row fieldnames long :: map (DictReader_row fieldnames) later)
    as Hread.
  { unfold read_rows. rewrite bool_decide_eq_true_2 by done.
    unfold DictReader_rows. rewrite filter_not_blank_long by done.
    by rewrite map_app. }
  apply Forall_app in Hsound as [Hrecords Hlater].
  apply Forall_app in Hten as [Hten_records Hten_later].
  unfold update_master_csv at 1 2, merge_rows. rewrite Hread.
  destruct (first_match team_name records)
    as [Hno | (before & record & after & -> & Hno & Hmatch)].
  - (* no record of the team before the long one *)
    rewrite (existsb_Forall_false _ _ Hno).
    rewrite update_first_skip by done. cbn [update_first]. rewrite Hteam.
    cbn [mbind result_bind bind].
    destruct (update_first_entries sound now team_name lane collision redlight
                later Hlater)
      as [-> | (before & row' & after & -> & _)];
      cbn [mbind result_bind bind option_map].
    + rewrite <- app_assoc, <- app_comm_cons.
      rewrite writerows_stops by assumption. split; reflexivity.
    + rewrite writerows_stops by assumption. split; reflexivity.
  - (* the team's record comes before the long one *)
    assert (existsb (record_matches team_name) (before ++ record :: after) = true) as ->.
    { rewrite existsb_app. simpl. rewrite Hmatch. by rewrite orb_true_r. }
    apply Forall_app in Hrecords as [_ [(e & He & _) _]%Forall_cons].
    apply entry_of_cells in He
      as (name & date & cl & ll & cc & lc & cr & lr & ct & lt & -> &
          Hcl & Hll & Hcc & Hlc & Hcr & Hlr & Hct & Hlt).
    apply Forall_app in Hten_records as [Hten_before [Hten_record Hten_after]%Forall_cons].
    assert (Forall (λ r, length r = 10%nat) (before ++ after)) as Hten_rest
      by (apply Forall_app; split; assumption).
    rewrite (update_master_csv_known_team now team_name lane collision redlight
               before after name date cl ll cc lc cr lr ct lt _ _ _ _
               Hten_rest Hno Hmatch Hll Hlc Hlr Hlt).
    cbn [fst records_of].
    destruct (update_row_DictReader_row now name date cl ll cc lc cr lr ct lt
                lane collision redlight _ _ _ _ Hll Hlc Hlr Hlt) as (row' & Hrow & Hcells).
    rewrite (update_first_app _ _ _ _ _ _
               (map (DictReader_row fieldnames) before
                ++ row' :: map (DictReader_row fieldnames) after)).
    2:{ rewrite update_first_match by done. by rewrite Hrow. }
    cbn [mbind result_bind bind].
    rewrite <- (app_assoc (map (DictReader_row fieldnames) before)), <- app_comm_cons.
    rewrite (writerows_app _ _ before) by (by apply writerows_DictReader_rows).
    cbn [writerows]. rewrite Hcells.
    rewrite writerows_stops by assumption. split; reflexivity.
Qed.

Lemma long_record_truncates_witness :
  let f :=
    Some [ fieldnames;
           ["alpha"; "2025-01-01 10:00:00"; "1"; "1"; "2"; "2"; "0"; "0"; "3"; "3"];
           ["beta"; "2025-01-01 11:00:00"; "0"; "0"; "1"; "1"; "0"; "0"; "1"; "1"; "x"];
           ["gamma"; "2025-01-01 12:00:00"; "0"; "0"; "0"; "0"; "0"; "0"; "0"; "0"] ] in
  let u := update_master_csv f "2025-01-02 10:00:00" "alpha" 0 0 0 in
  u.2 = Raise ValueError ∧
  u.1 = Some [ fieldnames;
               ["alpha"; "2025-01-02 10:00:00"; "0"; "0"; "0"; "0"; "0"; "0"; "0"; "0"] ].
Proof.
  apply (long_record_truncates
           [["alpha"; "2025-01-01 10:00:00"; "1"; "1"; "2"; "2"; "0"; "0"; "3"; "3"]]
           [["gamma"; "2025-01-01 12:00:00"; "0"; "0"; "0"; "0"; "0"; "0"; "0"; "0"]]
           "beta" "2025-01-01 11:00:00" "0" "0" "1" "1" "0" "0" "1" "1" "x"
           "2025-01-02 10:00:00" "alpha" 0 0 0).
  - reflexivity.
  - by repeat constructor.
  - repeat constructor.
    + eexists. split; [vm_compute; reflexivity|].
      unfold sound, lowest_nonneg, lowest_le_current. simpl. lia.
    + eexists. split; [vm_compute; reflexivity|].
      unfold sound, lowest_nonneg, lowest_le_current. simpl. lia.
  - reflexivity.
Defined.

Lemma read_rows_team_header (records : list (list string)) :
  read_rows (Some (team_header :: records)) = [].
Proof. done. Qed.

Lemma main_team_name_named (input : string) :
  main_team_name input = "master_violation" → strip input ≠ "".
Proof. intros H Hblank. unfold main_team_name in H. by rewrite Hblank in H. Qed.

(** Property X18.  A team whose key is [master_violation] (typed
    "Master Violation", say) has the leaderboard as its history file.
    When there is no leaderboard yet, its run ends normally and leaves
    the leaderboard with one record, so the history header and row
    written before are overwritten.  When the leaderboard exists with
    sound records, its run appends the summary row of eleven cells to
    the leaderboard, then the merge raises [ValueError] and leaves as
    many records as there were: the summary row is lost, and a team
    that had no record gets none. *)
Theorem history_in_the_leaderboard (d : dir) (input : string) (s : session) :
  main_team_name input = "master_violation" →
  team_csv (main_team_name input) = master_path ∧
  (d !! master_path = None →
   (main d input s).2 = Ok tt ∧
   ∃ record, (main d input s).1 !! master_path = Some [fieldnames; record] ∧
             length record = 10%nat) ∧
  (∀ records,
     d !! master_path = Some (fieldnames :: records) →
     Forall (entry_with sound) records →
     (main d input s).2 = Raise ValueError ∧
     ∃ records',
       (main d input s).1 !! master_path = Some (fieldnames :: records') ∧
       length records' = length records).
Proof.
  intros Hname. pose proof (main_team_name_named input Hname) as Hblank.
  split; [by rewrite Hname|].
  unfold main. rewrite bool_decide_eq_false_2 by done.
  unfold run_session. fold (main_team_name input). rewrite Hname.
  set (self := run (session_events s)).
  assert (∀ (d1 : dir) records f' r,
            d1 !! master_path = Some records →
            update_master_csv (Some (records ++ [summary_row self (session_ts s)]))
              (session_now s) "master_violation"
              (LaneMonitor.total_lane (lane self))
              (CollisionMonitor.total_collisions (collision self))
              (RedLightMonitor.total_red (redlight self)) = (Some f', r) →
            (cleanup d1 "master_violation" (session_ts s) (session_now s) self).2 = r ∧
            (cleanup d1 "master_violation" (session_ts s) (session_now s) self).1
              !! master_path = Some f') as Hcleanup.
  { intros d1 records f' r Hd1 Hu. unfold cleanup.
    change (team_csv "master_violation") with master_path.
    unfold csv_file in *. rewrite Hd1, lookup_insert_eq.
    change (default [] (Some records)) with records. rewrite Hu.
    cbn [fst snd]. by rewrite lookup_insert_eq. }
  unfold _init_team_csv. change (team_csv "master_violation") with master_path.
  split.
  - intros Hnone. unfold csv_file in *. rewrite Hnone.
    edestruct (Hcleanup (<[master_path := [team_header]]> d)) as [-> ->].
    + apply lookup_insert_eq.
    + apply update_master_csv_absent.
    + split; [done|]. by eexists.
  - intros records Hfile Hsound. unfold csv_file in *. rewrite Hfile.
    destruct (update_master_csv_long_record records []
                (str (count (LaneMonitor.violations (lane self))
                        "illegal_double_solid_cross"))
                (str (count (LaneMonitor.violations (lane self)) "illegal_solid_cross"))
                (str (count (LaneMonitor.violations (lane self))
                        "unjustified_dashed_cross"))
                (str (LaneMonitor.total_lane (lane self)))
                (str (CollisionMonitor.static_count (collision self)))
                (str (CollisionMonitor.dynamic_count (collision self)))
                (str (CollisionMonitor.total_collisions (collision self)))
                (str (count (RedLightMonitor.violations (redlight self))
                        "StopWaypointPassed"))
                (str (count (RedLightMonitor.violations (redlight self)) "TriggerVolume"))
                (str (RedLightMonitor.total_red (redlight self)))
                (session_ts s) (session_now s) "master_violation"
                (LaneMonitor.total_lane (lane self))
                (CollisionMonitor.total_collisions (collision self))
                (RedLightMonitor.total_red (redlight self)))
      as (records' & Hu & Hlen).
    + by rewrite app_nil_r.
    + apply name_matches_str.
    + destruct (Hcleanup d (fieldnames :: records) (fieldnames :: records')
                  (Raise ValueError) Hfile Hu) as [-> ->].
      split; [done|]. by exists records'.
Qed.

Lemma history_in_the_leaderboard_witness :
  team_csv (main_team_name "Master Violation") = master_path ∧
  ((∅ : dir) !! master_path = None →
   (main ∅ "Master Violation" Sample.crash).2 = Ok tt ∧
   ∃ record,
     (main ∅ "Master Violation" Sample.crash).1 !! master_path
     = Some [fieldnames; record] ∧
     length record = 10%nat) ∧
  (∀ records,
     (∅ : dir) !! master_path = Some (fieldnames :: records) →
     Forall (entry_with sound) records →
     (main ∅ "Master Violation" Sample.crash).2 = Raise ValueError ∧
     ∃ records',
       (main ∅ "Master Violation" Sample.crash).1 !! master_path
       = Some (fieldnames :: records') ∧
       length records' = length records).
Proof.
  apply (history_in_the_leaderboard ∅ "Master Violation" Sample.crash).
  reflexivity.
Defined.

End shared_file.


(** * Path following *)

Section path_following.
Import PurePursuit.

Lemma int_of_float_one (v : Q) : (1 <= v)%Q → (v < 2)%Q → int_of_float v = 1%Z.
Proof.
  destruct v as [a b]. unfold Qle, Qlt, int_of_float. simpl. intros H1 H2.
  rewrite Z.quot_div_nonneg by lia. symmetry.
  apply (Z.div_unique a (Z.pos b) 1 (a - Z.pos b)); lia.
Qed.

Lemma segment_one (distance : Vector3D → Vector3D → Q) (step : Q) (p1 p2 : Vector3D) :
  (0 < step)%Q → (step <= distance p1 p2)%Q → (distance p1 p2 < 2 * step)%Q →
  segment distance step p1 p2 = inr [lerp p1 p2 (inject_Z 0 / inject_Z 1)%Q].
Proof.
  intros Hstep Hlow Hhigh. unfold segment, div.
  destruct (Qeq_bool step 0) eqn:E; [apply Qeq_bool_iff in E; lra|].
  rewrite int_of_float_one; [done| |].
  - apply Qle_shift_div_l; lra.
  - apply Qlt_shift_div_r; lra.
Qed.

Lemma same_location_lerp_0 (p1 p2 : Vector3D) :
  same_location (lerp p1 p2 (inject_Z 0 / inject_Z 1)%Q) p1.
Proof. unfold same_location, lerp. simpl. split_and!; field. Qed.

Lemma same_location_refl (p : Vector3D) : same_location p p.
Proof. by split_and!. Qed.

(** Property X22.  When every two consecutive waypoints are at least
    [step] and less than [2 * step] apart, [smooth_path] adds no point:
    it returns the locations of the path's waypoints, one for one.
    This is the case of [main], which smooths with step 1.5 a path of
    waypoints spaced by [next(2.0)]. *)
Theorem smooth_path_keeps_waypoints (distance : Vector3D → Vector3D → Q)
    (path : list Vector3D) (step : Q) :
  path ≠ [] →
  (0 < step)%Q →
  Forall (λ s, (step <= distance s.1 s.2)%Q ∧ (distance s.1 s.2 < 2 * step)%Q)
    (consecutive path) →
  ∃ smoothed,
    smooth_path distance path step = inr smoothed ∧
    Forall2 same_location smoothed path.
Proof.
  intros Hpath Hstep Hdist.
  assert (∃ smoothed destination,
            segments distance step path = inr smoothed ∧
            last path = Some destination ∧
            Forall2 same_location (smoothed ++ [destination]) path)
    as (smoothed & destination & Hsmoothed & Hlast & Hsame).
  { induction path as [|p1 [|p2 rest] IH]; [done| |].
    - exists [], p1. split_and!; [done..|]. constructor; [apply same_location_refl|done].
    - change (consecutive (p1 :: p2 :: rest))
        with ((p1, p2) :: consecutive (p2 :: rest)) in Hdist.
      apply Forall_cons in Hdist as [[Hlow Hhigh] Hdist]. simpl in Hlow, Hhigh.
      destruct IH as (more & destination & Hmore & Hlast & Hsame); [done|done|].
      exists (lerp p1 p2 (inject_Z 0 / inject_Z 1)%Q :: more), destination.
      split_and!.
      + change (segments distance step (p1 :: p2 :: rest)) with
          (match segment distance step p1 p2 with
           | inr points =>
               match segments distance step (p2 :: rest) with
               | inr more => inr (points ++ more)
               | inl e => inl e
               end
           | inl e => inl e
           end).
        by rewrite segment_one, Hmore.
      + done.
      + simpl. constructor; [apply same_location_lerp_0|done]. }
  exists (smoothed ++ [destination]). split; [|done].
  unfold smooth_path. by rewrite Hsmoothed, Hlast.
Qed.

Lemma smooth_path_keeps_waypoints_witness :
  ∃ smoothed,
    smooth_path Sample.along_x Sample.waypoints (3 # 2) = inr smoothed ∧
    Forall2 same_location smoothed Sample.waypoints.
Proof.
  apply (smooth_path_keeps_waypoints Sample.along_x Sample.waypoints (3 # 2)).
  - done.
  - reflexivity.
  - repeat constructor; by vm_compute.
Defined.

End path_following.
